(** * mogdevice: the MOGLabs device client, embedded in Rocq

    A shallow embedding of [mogdevice/mogdevice.py] (class [MOGDevice]) and
    the properties of its request/response protocol.

    The embedding follows Python 3: [bytes] and [str] are different types,
    and a [bytes] method given a [str] argument raises [TypeError].
    Calls to [logger] are left out: they do not influence any result. *)

From Stdlib Require Import String Ascii Strings.Byte DecimalString.
From Stdlib Require Import ZArith QArith Lia Bool List Sorted.
Import ListNotations.

Local Open Scope Z_scope.
Local Open Scope list_scope.

(** ** Python values *)

(** A Python [bytes] object. *)
Definition bytes := list byte.

(** The two kinds of value the client handles as text: [bytes] and [str].
    A [str] is a Rocq [string]; its characters stand for the code points
    below 256. *)
Inductive pyval : Type :=
| PBytes (v : bytes)
| PStr (s : string).

(** A bytes literal [b"..."] without escapes. *)
Definition lit (s : string) : bytes := list_byte_of_string s.

Definition CR : byte := x0d.
Definition LF : byte := x0a.

(** [CRLF = b"\r\n"] *)
Definition CRLF : bytes := [CR; LF].

(** A value in the [args] of an exception: a number or a text. *)
Inductive pyobj : Type :=
| OInt (n : Z)
| OStr (s : string).

(** Exceptions.  [SerialException] is a subclass of [IOError] in pyserial;
    [IOError] stands for [OSError] and its other subclasses
    ([socket.error], [socket.timeout]).  A [SerialException] carries its
    [args]: pyserial raises it with a message on Windows and with an error
    number and a message on POSIX. *)
Inductive exn : Type :=
| RuntimeError (arg : pyval)
| TypeError
| ValueError
| IndexError
| StructError
| IOError
| SerialException (args : list pyobj)
| OtherException
| AttributeError.

Definition is_IOError (e : exn) : bool :=
  match e with
  | IOError | SerialException _ => true
  | _ => false
  end.

Definition is_SerialException (e : exn) : bool :=
  match e with
  | SerialException _ => true
  | _ => false
  end.

(** The outcome of a built-in function or of a call on the transport: a
    value or a raised exception. *)
Inductive result (A : Type) : Type :=
| Returns (a : A)
| Raises (e : exn).

Arguments Returns {A} a.
Arguments Raises {A} e.

(** The outcome of a method: a value, a raised exception, or a loop that
    was cut off by the iteration bound of the model. *)
Inductive res (A : Type) : Type :=
| Ok (a : A)
| Raise (e : exn)
| OutOfFuel.

Arguments Ok {A} a.
Arguments Raise {A} e.
Arguments OutOfFuel {A}.

Definition of_result {A} (r : result A) : res A :=
  match r with
  | Returns a => Ok a
  | Raises e => Raise e
  end.

(** Sequencing of built-in calls. *)
Definition rbind {A B} (r : result A) (k : A -> result B) : result B :=
  match r with
  | Returns a => k a
  | Raises e => Raises e
  end.

(** ** Methods of [bytes] *)

Fixpoint bytes_eqb (x y : bytes) : bool :=
  match x, y with
  | [], [] => true
  | c :: x', d :: y' => Byte.eqb c d && bytes_eqb x' y'
  | _, _ => false
  end.

(** [s.startswith(p)] *)
Fixpoint startswith (s p : bytes) {struct p} : bool :=
  match p, s with
  | [], _ => true
  | d :: p', c :: s' => Byte.eqb c d && startswith s' p'
  | _ :: _, [] => false
  end.

(** [s.endswith(p)] *)
Definition endswith (s p : bytes) : bool := startswith (rev s) (rev p).

(** [sub in s] *)
Fixpoint bytes_in (sub s : bytes) : bool :=
  startswith s sub ||
  match s with
  | [] => false
  | _ :: s' => bytes_in sub s'
  end.

(** ASCII whitespace, the characters [bytes.strip()] removes:
    space, [\t], [\n], [\r], [\x0b], [\f]. *)
Definition isspace (c : byte) : bool :=
  match c with
  | x20 | x09 | x0a | x0d | x0b | x0c => true
  | _ => false
  end.

Fixpoint lstrip (s : bytes) : bytes :=
  match s with
  | [] => []
  | c :: s' => if isspace c then lstrip s' else s
  end.

Definition rstrip (s : bytes) : bytes := rev (lstrip (rev s)).

(** [s.strip()] *)
Definition strip (s : bytes) : bytes := rstrip (lstrip s).

(** [s[n:]] for [n >= 0] *)
Definition slice_from (n : nat) (s : bytes) : bytes := skipn n s.

(** The scan of [s.split(sep, maxsplit)] for a non-empty [sep]: [n] is the
    number of splits still allowed, [skip] the number of bytes of a matched
    separator still to pass over, [cur] the current piece, reversed. *)
Fixpoint split_go (sep : bytes) (n skip : nat) (cur s : bytes) : list bytes :=
  match s with
  | [] => [rev cur]
  | c :: s' =>
      match skip with
      | S k => split_go sep n k cur s'
      | O =>
          match n with
          | S n' =>
              if startswith s sep
              then rev cur :: split_go sep n' (length sep - 1)%nat [] s'
              else split_go sep n O (c :: cur) s'
          | O => split_go sep n O (c :: cur) s'
          end
      end
  end.

(** A negative [maxsplit] (the default, -1) means no limit. *)
Definition split_count (s : bytes) (maxsplit : Z) : nat :=
  if maxsplit <? 0 then length s else Z.to_nat maxsplit.

(** [s.split(sep, maxsplit)]: [TypeError] for a [str] separator,
    [ValueError] for an empty one. *)
Definition split (s : bytes) (sep : pyval) (maxsplit : Z) : result (list bytes) :=
  match sep with
  | PStr _ => Raises TypeError
  | PBytes [] => Raises ValueError
  | PBytes sp => Returns (split_go sp (split_count s maxsplit) O [] s)
  end.

(** [s.rsplit(sep, maxsplit)]: the same scan from the right. *)
Definition rsplit (s : bytes) (sep : pyval) (maxsplit : Z) : result (list bytes) :=
  match sep with
  | PStr _ => Raises TypeError
  | PBytes [] => Raises ValueError
  | PBytes sp =>
      Returns (rev (map (@rev byte)
                 (split_go (rev sp) (split_count s maxsplit) O [] (rev s))))
  end.

(** [struct.unpack("<L", head)[0]]: four bytes, least significant first. *)
Definition unpack_L (head : bytes) : result Z :=
  match head with
  | [b0; b1; b2; b3] =>
      Returns (Z.of_N (Byte.to_N b0)
          + 256 * Z.of_N (Byte.to_N b1)
          + 65536 * Z.of_N (Byte.to_N b2)
          + 16777216 * Z.of_N (Byte.to_N b3))
  | _ => Raises StructError
  end.

Definition len (s : bytes) : Z := Z.of_nat (length s).

(** [b"".join(parts)] *)
Definition join (parts : list bytes) : bytes := concat parts.

(** ** Methods of [str] and built-in functions *)

(** [s.startswith(p)] *)
Definition str_startswith (s p : string) : bool := String.prefix p s.

(** [sub in s] *)
Fixpoint str_in (sub s : string) : bool :=
  String.prefix sub s ||
  match s with
  | EmptyString => false
  | String _ s' => str_in sub s'
  end.

(** [s.split(c, 1)[0]] for a one-character separator [c]: the text before
    the first [c], all of [s] when there is none. *)
Fixpoint split1_head (c : ascii) (s : string) : string :=
  match s with
  | EmptyString => EmptyString
  | String a s' => if Ascii.eqb a c then EmptyString else String a (split1_head c s')
  end.

(** [s.split(c)] for a one-character separator [c]. *)
Fixpoint str_split (c : ascii) (s : string) : list string :=
  match s with
  | EmptyString => [EmptyString]
  | String a s' =>
      if Ascii.eqb a c then EmptyString :: str_split c s'
      else match str_split c s' with
           | [] => [String a EmptyString]
           | p :: ps => String a p :: ps
           end
  end.

(** ["%d" % n] *)
Definition fmt_d (n : Z) : string := NilZero.string_of_int (Z.to_int n).

(** [s.encode()]: UTF-8; a code point from 128 to 255 takes two bytes. *)
Fixpoint encode (s : string) : bytes :=
  match s with
  | EmptyString => []
  | String a s' =>
      let n := N_of_ascii a in
      (if (n <? 128)%N then [byte_of_ascii a]
       else match Byte.of_N (192 + n / 64), Byte.of_N (128 + n mod 64) with
            | Some hi, Some lo => [hi; lo]
            | _, _ => []
            end) ++ encode s'
  end.

Definition quote1 : ascii := "039"%char.
Definition quote2 : ascii := "034"%char.
Definition backslash : ascii := "092"%char.

Definition hexdigit (n : N) : ascii :=
  match String.get (N.to_nat n) "0123456789abcdef" with
  | Some c => c
  | None => "0"%char
  end.

Fixpoint has_char (c : ascii) (s : string) : bool :=
  match s with
  | EmptyString => false
  | String a s' => Ascii.eqb a c || has_char c s'
  end.

(** The quote [repr] encloses the text in: a single quote, unless the text
    holds a single quote and no double quote. *)
Definition repr_quote (s : string) : ascii :=
  if has_char quote1 s && negb (has_char quote2 s) then quote2 else quote1.

(** One character of a [repr]; [hexed n] says whether a character at or
    above 127 is written as [\xhh]. *)
Definition repr_char (hexed : N -> bool) (q a : ascii) : string :=
  let n := N_of_ascii a in
  if Ascii.eqb a q || Ascii.eqb a backslash then String backslash (String a EmptyString)
  else if (n =? 9)%N then String backslash "t"
  else if (n =? 10)%N then String backslash "n"
  else if (n =? 13)%N then String backslash "r"
  else if (n <? 32)%N || ((127 <=? n)%N && hexed n)
  then String backslash (String "x" (String (hexdigit (n / 16)) (String (hexdigit (n mod 16)) EmptyString)))
  else String a EmptyString.

Fixpoint repr_body (hexed : N -> bool) (q : ascii) (s : string) : string :=
  match s with
  | EmptyString => EmptyString
  | String a s' => (repr_char hexed q a ++ repr_body hexed q s')%string
  end.

(** The characters from 127 to 255 that [repr] of a [str] escapes: the
    non-printable ones (DEL, the C1 controls, no-break space, soft hyphen). *)
Definition str_hexed (n : N) : bool :=
  (n <=? 160)%N || (n =? 173)%N.

(** [repr(v)] *)
Definition repr (v : pyval) : string :=
  match v with
  | PBytes x =>
      let s := string_of_list_byte x in
      let q := repr_quote s in
      String "b" (String q (repr_body (fun _ => true) q s ++ String q EmptyString))
  | PStr s =>
      let q := repr_quote s in
      String q (repr_body str_hexed q s ++ String q EmptyString)
  end.

(** ** Dictionaries *)

(** A [dict] or [OrderedDict] with [bytes] keys and values, in insertion
    order. *)
Definition odict := list (bytes * bytes).

(** [d[k] = v]: a key already present keeps its place. *)
Fixpoint setitem (d : odict) (k v : bytes) : odict :=
  match d with
  | [] => [(k, v)]
  | (k', v') :: d' =>
      if bytes_eqb k' k then (k, v) :: d' else (k', v') :: setitem d' k v
  end.

(** ** The transport

    The socket and serial-port objects behind [self.dev], with [select] and
    [time.sleep], are outside the program.  [W] is the state of that outside
    world; every call maps a state to an outcome and a new state. *)
Class Transport (W : Type) : Type := {
  (** [socket.socket(AF_INET, SOCK_STREAM)] *)
  socket_socket : W -> result unit * W;
  (** [dev.setsockopt(SOL_SOCKET, SO_REUSEADDR, 1)] *)
  socket_setsockopt : W -> result unit * W;
  (** [dev.settimeout(t)] *)
  socket_settimeout : Q -> W -> result unit * W;
  (** [dev.connect((addr, int(port)))], the conversion of [port] included *)
  socket_connect : string -> string -> W -> result unit * W;
  (** [dev.recv(bufsize)] *)
  socket_recv : Z -> W -> result bytes * W;
  (** [dev.send(data)] *)
  socket_send : bytes -> W -> result Z * W;
  (** [len(select.select([dev], [], [], t)[0]) > 0] *)
  select_readable : Q -> W -> result bool * W;
  (** [serial.Serial(port, baudrate=115200, bytesize=8, parity="N",
      stopbits=1, timeout=t, writeTimeout=0)] *)
  serial_Serial : string -> Q -> W -> result unit * W;
  (** [dev.read(size)] *)
  serial_read : Z -> W -> result bytes * W;
  (** [dev.readline(size)] *)
  serial_readline : Z -> W -> result bytes * W;
  (** [dev.inWaiting()] *)
  serial_inWaiting : W -> result Z * W;
  (** [dev.write(data)] *)
  serial_write : bytes -> W -> result Z * W;
  (** [dev.timeout] and [dev.timeout = t] *)
  serial_timeout : W -> option Q;
  serial_set_timeout : option Q -> W -> W;
  (** [time.sleep(t)] *)
  time_sleep : Q -> W -> result unit * W;
  (** [dev.close()] *)
  dev_close : W -> result unit * W
}.

(** The settle timeout of [recv], [0.1] seconds. *)
Definition settle : Q := 1 # 10.

(** The attributes of a [MOGDevice] object; [has_dev] is
    [hasattr(self, "dev")] and [dev] the world the transport lives in. *)
Record MOGDevice (W : Type) : Type := mkMOGDevice {
  connection : string;
  is_usb : bool;
  has_dev : bool;
  info : option bytes;
  dev : W
}.

Arguments mkMOGDevice {W} connection is_usb has_dev info dev.
Arguments connection {W} self : rename.
Arguments is_usb {W} self : rename.
Arguments has_dev {W} self : rename.
Arguments info {W} self : rename.
Arguments dev {W} self : rename.

Definition set_dev {W} (w : W) (self : MOGDevice W) : MOGDevice W :=
  mkMOGDevice (connection self) (is_usb self) (has_dev self) (info self) w.

Definition bind_dev {W} (self : MOGDevice W) : MOGDevice W :=
  mkMOGDevice (connection self) (is_usb self) true (info self) (dev self).

Definition set_info {W} (i : bytes) (self : MOGDevice W) : MOGDevice W :=
  mkMOGDevice (connection self) (is_usb self) (has_dev self) (Some i) (dev self).

(** A method body: it runs on the object and leaves it updated. *)
Definition M (W A : Type) : Type := MOGDevice W -> res A * MOGDevice W.

Definition ret {W A} (a : A) : M W A := fun self => (Ok a, self).

Definition raise {W A} (e : exn) : M W A := fun self => (Raise e, self).

Definition out_of_fuel {W A} : M W A := fun self => (OutOfFuel, self).

Definition bind {W A B} (m : M W A) (k : A -> M W B) : M W B :=
  fun self =>
    match m self with
    | (Ok a, self') => k a self'
    | (Raise e, self') => (Raise e, self')
    | (OutOfFuel, self') => (OutOfFuel, self')
    end.

(** A pure computation that may raise. *)
Definition pure {W A} (r : result A) : M W A :=
  fun self => (of_result r, self).

(** A call on [self.dev]. *)
Definition call {W A} (op : W -> result A * W) : M W A :=
  fun self => let (r, w) := op (dev self) in (of_result r, set_dev w self).

Definition modify {W} (f : MOGDevice W -> MOGDevice W) : M W unit :=
  fun self => (Ok tt, f self).

(** [try: m  except <exceptions accepted by handles> as e: h e] *)
Definition try_except {W A} (m : M W A) (handles : exn -> bool)
    (h : exn -> M W A) : M W A :=
  fun self =>
    match m self with
    | (Raise e, self') => if handles e then h e self' else (Raise e, self')
    | other => other
    end.

(** A branch on [self.is_usb]. *)
Definition if_usb {W A} (usb net : M W A) : M W A :=
  fun self => if is_usb self then usb self else net self.

Declare Scope py_scope.
Delimit Scope py_scope with py.
Notation "x <- m ;; k" := (bind m (fun x => k))
  (at level 61, m at next level, right associativity) : py_scope.
Notation "m ;; k" := (bind m (fun _ => k))
  (at level 61, right associativity) : py_scope.
Local Open Scope py_scope.

(** ** The methods of [MOGDevice]

    A [while] loop that depends on the transport takes a bound [fuel] on
    its number of iterations and ends in [OutOfFuel] when it would exceed
    it. *)
Section Methods.

Context {W : Type} {T : Transport W}.

Local Abbreviation M := (M W).

(** [send_raw(cmd)] *)
Definition send_raw (cmd : bytes) : M Z :=
  if_usb (call (serial_write cmd)) (call (socket_send cmd)).

(** [send(cmd)]: a [str] has an [encode] attribute, a [bytes] has none. *)
Definition send (cmd : pyval) : M unit :=
  let cmd := match cmd with
             | PStr s => encode s
             | PBytes x => x
             end in
  let cmd := if negb (endswith cmd CRLF) then cmd ++ CRLF else cmd in
  _ <- send_raw cmd ;;
  ret tt.

(** [has_data(timeout)] *)
Definition has_data (timeout : Q) : M bool :=
  if_usb
    (try_except
       (n <- call serial_inWaiting ;;
        if negb (n =? 0) then ret true
        else if Qeq_bool timeout 0 then ret false
        else
          call (time_sleep timeout) ;;
          n <- call serial_inWaiting ;;
          ret (n >? 0))
       is_SerialException
       (fun _ => ret false))
    (call (select_readable timeout)).

(** The serial loop of [recv]: [while True: segment = readline(buffer) ...] *)
Fixpoint recv_serial_loop (fuel : nat) (buffer : Z) (data : bytes) : M bytes :=
  match fuel with
  | O => out_of_fuel
  | S fuel' =>
      segment <- call (serial_readline buffer) ;;
      if len segment =? 0 then ret data
      else recv_serial_loop fuel' buffer (data ++ segment)
  end.

(** The socket loop of [recv]: [while self.has_data(timeout): ...]; an
    [IOError] of the read ends the loop when data was received before. *)
Fixpoint recv_socket_loop (fuel : nat) (buffer : Z) (timeout : Q)
    (data : bytes) : M bytes :=
  more <- has_data timeout ;;
  if more then
    match fuel with
    | O => out_of_fuel
    | S fuel' =>
        fun self =>
          match call (socket_recv buffer) self with
          | (Ok segment, self') =>
              recv_socket_loop fuel' buffer timeout (data ++ segment) self'
          | (Raise e, self') =>
              if is_IOError e && negb (len data =? 0) then (Ok data, self')
              else (Raise e, self')
          | (OutOfFuel, self') => (OutOfFuel, self')
          end
    end
  else ret data.

(** [recv(buffer)] *)
Definition recv (fuel : nat) (buffer : Z) : M bytes :=
  if_usb
    (data <- call (serial_readline buffer) ;;
     data <- (if negb (len data =? 0) then
                t0 <- (fun self => (Ok (serial_timeout (dev self)), self)) ;;
                call (fun w => (Returns tt,
                                serial_set_timeout
                                  (Some (if endswith data CRLF then 0%Q else settle)) w)) ;;
                data <- recv_serial_loop fuel buffer data ;;
                call (fun w => (Returns tt, serial_set_timeout t0 w)) ;;
                ret data
              else ret data) ;;
     if len data =? 0 then raise (RuntimeError (PStr "Timed out"))
     else ret data)
    (data <- call (socket_recv buffer) ;;
     let timeout := if endswith data CRLF then 0%Q else settle in
     recv_socket_loop fuel buffer timeout data).

(** The loop of [flush]: [while self.has_data(timeout): dat += self.recv(buffer)] *)
Fixpoint flush_loop (fuel n : nat) (timeout : Q) (buffer : Z)
    (dat : bytes) : M bytes :=
  more <- has_data timeout ;;
  if more then
    match n with
    | O => out_of_fuel
    | S n' =>
        segment <- recv fuel buffer ;;
        flush_loop fuel n' timeout buffer (dat ++ segment)
    end
  else ret dat.

(** [flush(timeout, buffer)] *)
Definition flush (fuel : nat) (timeout : Q) (buffer : Z) : M bytes :=
  flush_loop fuel fuel timeout buffer [].

(** The loop of [recv_raw]: [while size > 0: ...].  Each iteration that
    goes on takes at least one byte off [size], so [n], the requested size,
    bounds the iterations. *)
Fixpoint recv_raw_loop (n : nat) (size : Z) (parts : list bytes)
    : M (list bytes) :=
  if size >? 0 then
    match n with
    | O => out_of_fuel
    | S n' =>
        chunk <- if_usb (call (serial_read size)) (call (socket_recv size)) ;;
        if len chunk =? 0 then ret parts
        else recv_raw_loop n' (size - len chunk) (parts ++ [chunk])
    end
  else ret parts.

(** [recv_raw(size)] *)
Definition recv_raw (size : Z) : M bytes :=
  parts <- recv_raw_loop (Z.to_nat size) size [] ;;
  ret (join parts).

(** [ask(cmd)] *)
Definition ask (fuel : nat) (cmd : pyval) : M bytes :=
  flush fuel 0 256 ;;
  send cmd ;;
  data <- recv fuel 256 ;;
  let resp := strip data in
  if startswith resp (lit "ERR:")
  then raise (RuntimeError (PBytes (strip (slice_from 4 resp))))
  else ret resp.

(** [cmd(cmd)] *)
Definition cmd (fuel : nat) (c : pyval) : M bytes :=
  resp <- ask fuel c ;;
  if startswith resp (lit "OK") then ret resp
  else raise (RuntimeError (PBytes resp)).

(** The loop of [ask_dict]: [name, val = entry.split(b":")] needs exactly
    two pieces. *)
Fixpoint ask_dict_loop (entries : list bytes) (vals : odict) : result odict :=
  match entries with
  | [] => Returns vals
  | entry :: rest =>
      rbind (split entry (PBytes (lit ":")) (-1)) (fun pieces =>
      match pieces with
      | [name; val] => ask_dict_loop rest (setitem vals (strip name) (strip val))
      | _ => Raises ValueError
      end)
  end.

(** [ask_dict(cmd)] *)
Definition ask_dict (fuel : nat) (c : pyval) : M odict :=
  resp <- ask fuel c ;;
  let resp := if startswith resp (lit "OK") then strip (slice_from 3 resp)
              else resp in
  if negb (bytes_in (lit ":") resp)
  then raise (RuntimeError
                (PStr ("Response to " ++ repr c ++ " not a dictionary")%string))
  else
    let sep := if bytes_in (lit ",") resp then lit "," else [LF] in
    pure (rbind (split resp (PBytes sep) (-1)) (fun entries =>
          ask_dict_loop entries [])).

(** [ask_bin(cmd)] *)
Definition ask_bin (fuel : nat) (c : pyval) : M bytes :=
  send c ;;
  head <- recv_raw 4 ;;
  if bytes_eqb head (lit "ERR:")
  then data <- recv fuel 256 ;;
       raise (RuntimeError (PBytes (strip data)))
  else
    datalen <- pure (unpack_L head) ;;
    data <- recv_raw datalen ;;
    if negb (len data =? datalen)
    then raise (RuntimeError (PStr "Binary response block has incorrect length"))
    else ret data.

(** The [str] literals of [versions]: ["\n"] and [" "]. *)
Definition str_LF : string := String "010"%char EmptyString.
Definition str_space : string := " "%string.

(** The loop of [versions] over the pieces of the version string. *)
Fixpoint versions_loop (ls : list bytes) (vers : odict) : result odict :=
  match ls with
  | [] => Returns vers
  | l :: rest =>
      if startswith l (lit "OK") then versions_loop rest vers
      else
        rbind (split l (PBytes (lit ":")) 2) (fun pieces =>
        match pieces with
        | [n; v] =>
            let v := strip v in
            rbind (if bytes_in (lit " ") v
                   then rbind (rsplit v (PStr str_space) 2) (fun parts =>
                        match nth_error parts 1 with
                        | Some x => Returns (strip x)
                        | None => Raises IndexError
                        end)
                   else Returns v) (fun v =>
            versions_loop rest (setitem vers (strip n) v))
        | _ => Raises ValueError
        end)
  end.

(** [versions()] *)
Definition versions (fuel : nat) : M odict :=
  verstr <- ask fuel (PBytes (lit "version")) ;;
  if bytes_eqb verstr (lit "Command not defined")
  then raise (RuntimeError (PStr "Incompatible firmware"))
  else if bytes_in (lit ":") verstr then
    let tk := if bytes_in (lit ",") verstr then PBytes (lit ",")
              else PStr str_LF in
    pure (rbind (split verstr tk (-1)) (fun ls => versions_loop ls []))
  else ret (setitem [] (lit "UC") (strip verstr)).

(** [reconnect(timeout, check)].  The handler of the serial branch takes
    [E.args[0].split(":", 1)[0]]: with no argument the index fails, and a
    number has no [split]. *)
Definition reconnect (fuel : nat) (timeout : Q) (check : bool) : M unit :=
  (fun self => if has_dev self then call dev_close self else ret tt self) ;;
  if_usb
    (try_except
       ((fun self => call (serial_Serial (connection self) timeout) self) ;;
        modify bind_dev)
       is_SerialException
       (fun e =>
          match e with
          | SerialException [] => raise IndexError
          | SerialException (OStr msg :: _) =>
              raise (RuntimeError (PStr (split1_head ":" msg)))
          | SerialException (OInt _ :: _) => raise AttributeError
          | _ => raise e
          end))
    (call socket_socket ;;
     modify bind_dev ;;
     call socket_setsockopt ;;
     call (socket_settimeout timeout) ;;
     fun self =>
       match str_split ":" (connection self) with
       | [addr; port] => call (socket_connect addr port) self
       | _ => raise ValueError self
       end) ;;
  if check then
    try_except
      (i <- ask fuel (PBytes (lit "info")) ;; modify (set_info i))
      (fun _ => true)
      (fun _ => raise (RuntimeError (PStr "Device did not respond to query")))
  else ret tt.

(** [__init__(addr, port, timeout, check)] on a new object, in the world
    [w]: the attributes are set, then [reconnect] runs. *)
Definition __init__ (fuel : nat) (addr : string) (port : option Z)
    (timeout : Q) (check : bool) (w : W) : res unit * MOGDevice W :=
  if str_startswith addr "COM" || String.eqb addr "USB" then
    let addr := match port with
                | Some p => ("COM" ++ fmt_d p)%string
                | None => addr
                end in
    let addr := split1_head " " addr in
    reconnect fuel timeout check (mkMOGDevice addr true false None w)
  else
    let addr :=
      if negb (str_in ":" addr) then
        let port := match port with
                    | None => 7802
                    | Some p => p
                    end in
        (addr ++ ":" ++ fmt_d port)%string
      else addr in
    reconnect fuel timeout check (mkMOGDevice addr false false None w).

End Methods.

(** ** A scripted transport

    A device that answers each write with the next scripted reply.  [rx]
    holds the packets that have arrived and were not read yet, [replies]
    the packets each coming write will make arrive, [tx] the data written
    so far, [reads] the number of read calls made.  A read takes bytes
    from the first packet only; on an empty [rx] it returns no bytes, as a
    closed channel or a read that timed out does. *)
Module Sim.

Record chan : Type := mkChan {
  rx : list bytes;
  replies : list (list bytes);
  tx : list bytes;
  reads : nat;
  tmo : option Q
}.

Definition read (size : Z) (w : chan) : result bytes * chan :=
  match rx w with
  | [] => (Returns [], mkChan [] (replies w) (tx w) (S (reads w)) (tmo w))
  | p :: ps =>
      let n := Z.to_nat size in
      let rest := skipn n p in
      (Returns (firstn n p),
       mkChan (match rest with
               | [] => ps
               | _ => rest :: ps
               end) (replies w) (tx w) (S (reads w)) (tmo w))
  end.

(** The first [n] bytes of [p], or its bytes up to the first line feed if
    that comes earlier, and the bytes after them. *)
Fixpoint take_line (n : nat) (p : bytes) : bytes * bytes :=
  match n, p with
  | S n', c :: p' =>
      if Byte.eqb c LF then ([c], p')
      else let (l, rest) := take_line n' p' in (c :: l, rest)
  | _, _ => ([], p)
  end.

Definition readline (size : Z) (w : chan) : result bytes * chan :=
  match rx w with
  | [] => (Returns [], mkChan [] (replies w) (tx w) (S (reads w)) (tmo w))
  | p :: ps =>
      let (l, rest) := take_line (Z.to_nat size) p in
      (Returns l,
       mkChan (match rest with
               | [] => ps
               | _ => rest :: ps
               end) (replies w) (tx w) (S (reads w)) (tmo w))
  end.

Definition write (data : bytes) (w : chan) : result Z * chan :=
  (Returns (len data),
   mkChan (rx w ++ hd [] (replies w)) (tl (replies w)) (tx w ++ [data])
     (reads w) (tmo w)).

Definition readable (w : chan) : bool :=
  match rx w with
  | [] => false
  | _ => true
  end.

Definition pass (w : chan) : result unit * chan := (Returns tt, w).

#[global] Instance transport : Transport chan := {
  socket_socket := pass;
  socket_setsockopt := pass;
  socket_settimeout := fun _ => pass;
  socket_connect := fun _ _ => pass;
  socket_recv := read;
  socket_send := write;
  select_readable := fun _ w => (Returns (readable w), w);
  serial_Serial := fun _ _ => pass;
  serial_read := read;
  serial_readline := readline;
  serial_inWaiting := fun w => (Returns (len (concat (rx w))), w);
  serial_write := write;
  serial_timeout := tmo;
  serial_set_timeout := fun t w => mkChan (rx w) (replies w) (tx w) (reads w) t;
  time_sleep := fun _ => pass;
  dev_close := pass
}.

(** A connected network client whose device will answer the next command
    with the packets [reply]. *)
Definition net (reply : list bytes) : MOGDevice chan :=
  mkMOGDevice "10.1.1.23:7802" false true None
    (mkChan [] [reply] [] O (Some 1%Q)).

(** The same over a serial port. *)
Definition usb (reply : list bytes) : MOGDevice chan :=
  mkMOGDevice "COM3" true true None (mkChan [] [reply] [] O (Some 1%Q)).

(** A client with the packets [pending] already waiting to be read. *)
Definition net_pending (pending : list bytes) : MOGDevice chan :=
  mkMOGDevice "10.1.1.23:7802" false true None
    (mkChan pending [] [] O (Some 1%Q)).

End Sim.

(** ** Vocabulary of the statements *)

Section Vocabulary.

Context {W : Type} {T : Transport W}.

(** The exchange [ask] makes with the device: stale input is flushed, the
    command is sent, and the text the device answers is received.  Its
    value is the device response, as received. *)
Definition exchange (fuel : nat) (c : pyval) : M W bytes :=
  flush fuel 0 256 ;;
  send c ;;
  recv fuel 256.

(** One write of [data] on the transport: [dev.write(data)] on a serial
    port, [dev.send(data)] on a socket. *)
Definition transmit (data : bytes) : M W unit :=
  fun self =>
    let (r, w) := (if is_usb self then serial_write data else socket_send data)
                    (dev self) in
    (of_result (rbind r (fun _ => Returns tt)), set_dev w self).

(** The bytes [send] works on: a [str] command encoded, a [bytes] command
    as it is. *)
Definition command_bytes (c : pyval) : bytes :=
  match c with
  | PStr s => encode s
  | PBytes x => x
  end.

(** The transport keeps the contract of [socket.recv(bufsize)] and
    [Serial.read(size)]: a read returns at most the number of bytes it was
    asked for. *)
Definition bounded_reads : Prop :=
  forall (size : Z) (w w' : W) (chunk : bytes),
    0 < size ->
    (socket_recv size w = (Returns chunk, w') -> len chunk <= size) /\
    (serial_read size w = (Returns chunk, w') -> len chunk <= size).

(** Every read on the transport returns: none raises. *)
Definition reads_return : Prop :=
  forall (size : Z) (w : W),
    (exists chunk w', socket_recv size w = (Returns chunk, w')) /\
    (exists chunk w', serial_read size w = (Returns chunk, w')).

(** A method leaves the connection target of the object as it is. *)
Definition keeps_target {A} (m : M W A) : Prop :=
  forall self r self',
    m self = (r, self') ->
    connection self' = connection self /\ is_usb self' = is_usb self.

End Vocabulary.

(** ** Further code of the module *)

(** [dev.gettimeout()] of a socket, read by [set_timeout]. *)
Class SocketTimeout (W : Type) : Type := {
  socket_gettimeout : W -> result (option Q) * W
}.

Section SetTimeout.

Context {W : Type} {T : Transport W} {G : SocketTimeout W}.

(** [set_timeout(val)]: [None] for [val] asks for the current value only. *)
Definition set_timeout (val : option Q) : M W (option Q) :=
  if_usb
    (old <- (fun self => (Ok (serial_timeout (dev self)), self)) ;;
     match val with
     | Some v => call (fun w => (Returns tt, serial_set_timeout (Some v) w))
     | None => ret tt
     end ;;
     ret old)
    (old <- call socket_gettimeout ;;
     match val with
     | Some v => call (socket_settimeout v)
     | None => ret tt
     end ;;
     ret old).

End SetTimeout.

(** The characters [str.strip()] removes, among the code points below 256:
    [\t] to [\r], [\x1c] to [\x1f], space, [\x85] and [\xa0]. *)
Definition str_isspace (a : ascii) : bool :=
  let n := N_of_ascii a in
  ((9 <=? n) && (n <=? 13) || (28 <=? n) && (n <=? 32)
   || (n =? 133) || (n =? 160))%N.

Fixpoint str_lstrip (s : string) : string :=
  match s with
  | EmptyString => EmptyString
  | String a s' => if str_isspace a then str_lstrip s' else s
  end.

(** [s.rstrip()]: the text up to its last character that is no space. *)
Fixpoint str_rstrip (s : string) : string :=
  match s with
  | EmptyString => EmptyString
  | String a s' =>
      match str_rstrip s' with
      | EmptyString => if str_isspace a then EmptyString else String a EmptyString
      | t => String a t
      end
  end.

(** [s.strip()] *)
Definition str_strip (s : string) : string := str_rstrip (str_lstrip s).

(** The loop of [load_script] over the lines the opened file yields;
    [linenum] is the index [enumerate] gives the first of them.  The pairs
    the generator yields are listed in order. *)
Fixpoint load_script_from (linenum : Z) (lines : list string)
    : list (Z * string) :=
  match lines with
  | [] => []
  | line :: rest =>
      let line := split1_head "#" line in
      let line := str_strip line in
      if (String.length line =? 0)%nat
      then load_script_from (linenum + 1) rest
      else (linenum + 1, line) :: load_script_from (linenum + 1) rest
  end.

(** [load_script(filename)], for a file whose lines are [lines]. *)
Definition load_script (lines : list string) : list (Z * string) :=
  load_script_from 0 lines.

(** ** A transport with scripted failures

    Each read takes the next scripted outcome: a chunk or an exception.
    With nothing left a read returns no bytes.  The serial timeout is
    stored in [tmo]. *)
Module Flaky.

Record chan : Type := mkChan {
  script : list (result bytes);
  tmo : option Q
}.

Definition read (size : Z) (w : chan) : result bytes * chan :=
  match script w with
  | [] => (Returns [], w)
  | Returns p :: rest => (Returns (firstn (Z.to_nat size) p), mkChan rest (tmo w))
  | Raises e :: rest => (Raises e, mkChan rest (tmo w))
  end.

Definition waiting (w : chan) : result Z * chan :=
  match script w with
  | [] => (Returns 0, w)
  | Returns p :: _ => (Returns (len p), w)
  | Raises e :: rest => (Raises e, mkChan rest (tmo w))
  end.

Definition readable (w : chan) : bool :=
  match script w with
  | [] => false
  | _ => true
  end.

Definition pass (w : chan) : result unit * chan := (Returns tt, w).

(** The ports [COM9] and [USB] are absent.  Opening [COM9] fails as
    pyserial reports it on Windows, opening [USB] as it does on POSIX. *)
Definition open_port (port : string) (w : chan) : result unit * chan :=
  if String.eqb port "COM9"
  then (Raises (SerialException
                  [OStr "could not open port 'COM9': FileNotFoundError"]), w)
  else if String.eqb port "USB"
  then (Raises (SerialException
                  [OInt 2;
                   OStr "could not open port USB: No such file or directory"]),
        w)
  else (Returns tt, w).

#[global] Instance transport : Transport chan := {
  socket_socket := pass;
  socket_setsockopt := pass;
  socket_settimeout := fun _ => pass;
  socket_connect := fun _ _ => pass;
  socket_recv := read;
  socket_send := fun data w => (Returns (len data), w);
  select_readable := fun _ w => (Returns (readable w), w);
  serial_Serial := fun port _ => open_port port;
  serial_read := read;
  serial_readline := read;
  serial_inWaiting := waiting;
  serial_write := fun data w => (Returns (len data), w);
  serial_timeout := tmo;
  serial_set_timeout := fun t w => mkChan (script w) t;
  time_sleep := fun _ => pass;
  dev_close := pass
}.

#[global] Instance socket_timeout : SocketTimeout chan := {
  socket_gettimeout := fun w => (Returns (tmo w), w)
}.

Definition net (s : list (result bytes)) : MOGDevice chan :=
  mkMOGDevice "10.1.1.23:7802" false true None (mkChan s (Some 1%Q)).

Definition usb (s : list (result bytes)) : MOGDevice chan :=
  mkMOGDevice "COM3" true true None (mkChan s (Some 1%Q)).

End Flaky.

(** ** A transport that always delivers

    An open channel with data to spare: each read brings one byte, the
    next of a counter. *)
Module Stream.

Definition chan : Type := N.

Definition read (size : Z) (w : chan) : result bytes * chan :=
  (Returns [match Byte.of_N (w mod 256) with
            | Some x => x
            | None => x00
            end], N.succ w).

Definition pass (w : chan) : result unit * chan := (Returns tt, w).

#[global] Instance transport : Transport chan := {
  socket_socket := pass;
  socket_setsockopt := pass;
  socket_settimeout := fun _ => pass;
  socket_connect := fun _ _ => pass;
  socket_recv := read;
  socket_send := fun data w => (Returns (len data), w);
  select_readable := fun _ w => (Returns true, w);
  serial_Serial := fun _ _ => pass;
  serial_read := read;
  serial_readline := read;
  serial_inWaiting := fun w => (Returns 1, w);
  serial_write := fun data w => (Returns (len data), w);
  serial_timeout := fun _ => None;
  serial_set_timeout := fun _ w => w;
  time_sleep := fun _ => pass;
  dev_close := pass
}.

Definition net (start : N) : MOGDevice chan :=
  mkMOGDevice "10.1.1.23:7802" false true None start.

End Stream.

(** ** Vocabulary of the further statements *)

(** The number of bytes [c] in [s]. *)
Fixpoint count_byte (c : byte) (s : bytes) : nat :=
  match s with
  | [] => O
  | x :: s' => (if Byte.eqb x c then 1 else 0) + count_byte c s'
  end.

(** The pieces [es] with the byte [c] between them. *)
Fixpoint join_with (c : byte) (es : list bytes) : bytes :=
  match es with
  | [] => []
  | [e] => e
  | e :: es' => e ++ c :: join_with c es'
  end.

(** A dictionary entry as a device writes it: [name:value]. *)
Definition render_entry (kv : bytes * bytes) : bytes :=
  fst kv ++ lit ":" ++ snd kv.

(** A dictionary as a device writes it: comma-separated entries. *)
Definition render (d : odict) : bytes :=
  join_with "," (map render_entry d).

(** A name or value that a dictionary response carries unchanged: it has
    no separator in it and no whitespace around it. *)
Definition plain (s : bytes) : Prop :=
  strip s = s /\ ~ In ":"%byte s /\ ~ In ","%byte s /\ ~ In LF s.

(** What [ask_dict] keeps true of the dictionary it builds. *)
Definition well_formed (d : odict) : Prop :=
  NoDup (map fst d) /\
  forall k v, In (k, v) d ->
    strip k = k /\ strip v = v /\ ~ In ":"%byte k /\ ~ In ":"%byte v.

(** A component that [versions] takes over as written: its name and
    version hold no colon, and the name does not begin with ["OK"]. *)
Definition component (kv : bytes * bytes) : Prop :=
  ~ In ":"%byte (fst kv) /\ ~ In ":"%byte (snd kv) /\
  (forall rest, fst kv <> lit "OK" ++ rest).

(** The serial port stores its timeout: it reads back what was assigned,
    and a [readline] leaves it alone. *)
Definition timeout_stored {W : Type} {T : Transport W} : Prop :=
  (forall (t : option Q) (w : W), serial_timeout (serial_set_timeout t w) = t) /\
  (forall (size : Z) (w w' : W) (r : result bytes),
     serial_readline size w = (r, w') -> serial_timeout w' = serial_timeout w).

(** No read on the transport comes back empty: the channel stays open and
    delivers. *)
Definition reads_deliver {W : Type} {T : Transport W} : Prop :=
  forall (size : Z) (w w' : W) (chunk : bytes),
    0 < size ->
    (socket_recv size w = (Returns chunk, w') -> 0 < len chunk) /\
    (serial_read size w = (Returns chunk, w') -> 0 < len chunk).

(** The number of characters [c] in [s]. *)
Fixpoint str_count (c : ascii) (s : string) : nat :=
  match s with
  | EmptyString => O
  | String a s' => (if Ascii.eqb a c then 1 else 0) + str_count c s'
  end.

(** * Properties *)

(** ** Facts on [bytes] *)

Section BytesFacts.

Lemma byte_eqb_refl (c : byte) : Byte.eqb c c = true.
Proof. apply byte_dec_lb. reflexivity. Qed.

Lemma byte_eqb_true (c d : byte) : Byte.eqb c d = true -> c = d.
Proof. apply byte_dec_bl. Qed.

Lemma bytes_eqb_eq (x y : bytes) : bytes_eqb x y = true <-> x = y.
Proof.
  revert y. induction x as [|c x IH]; intros [|d y]; simpl; split;
    try discriminate; try reflexivity.
  - intros H. apply andb_true_iff in H. destruct H as [Hc Hx].
    apply byte_eqb_true in Hc. apply IH in Hx. congruence.
  - intros H. injection H as -> ->. rewrite byte_eqb_refl. simpl.
    apply IH. reflexivity.
Qed.

Lemma bytes_eqb_neq (x y : bytes) : bytes_eqb x y = false <-> x <> y.
Proof.
  split.
  - intros H E. apply bytes_eqb_eq in E. congruence.
  - intros H. destruct (bytes_eqb x y) eqn:E; [|reflexivity].
    apply bytes_eqb_eq in E. contradiction.
Qed.

(** [startswith] is the prefix relation. *)
Lemma startswith_iff (s p : bytes) :
  startswith s p = true <-> exists r, s = p ++ r.
Proof.
  revert s. induction p as [|d p IH]; intros s; simpl.
  - split; [intros _; exists s; reflexivity | reflexivity].
  - destruct s as [|c s].
    + split; [discriminate | intros [r Hr]; discriminate].
    + rewrite andb_true_iff, IH. split.
      * intros [Hc [r Hr]]. apply byte_eqb_true in Hc. exists r. congruence.
      * intros [r Hr]. injection Hr as -> ->. split.
        -- apply byte_eqb_refl.
        -- exists r. reflexivity.
Qed.

Lemma startswith_app (p r : bytes) : startswith (p ++ r) p = true.
Proof. apply startswith_iff. exists r. reflexivity. Qed.

(** [endswith] is the suffix relation. *)
Lemma endswith_iff (s p : bytes) :
  endswith s p = true <-> exists q, s = q ++ p.
Proof.
  unfold endswith. rewrite startswith_iff. split.
  - intros [r Hr]. exists (rev r).
    rewrite <- (rev_involutive s), Hr, rev_app_distr, rev_involutive.
    reflexivity.
  - intros [q ->]. exists (rev q). apply rev_app_distr.
Qed.

Lemma slice_from_app (p r : bytes) : slice_from (length p) (p ++ r) = r.
Proof.
  unfold slice_from. induction p as [|c p IH]; simpl; [reflexivity | exact IH].
Qed.

(** A one-byte needle is in [s] exactly when the byte occurs in [s]. *)
Lemma bytes_in_single (c : byte) (s : bytes) :
  bytes_in [c] s = true <-> In c s.
Proof.
  induction s as [|d s IH]; simpl.
  - split; [discriminate | contradiction].
  - rewrite orb_true_iff, IH, andb_true_r. split.
    + intros [H | H]; [left; apply byte_eqb_true; exact H | right; exact H].
    + intros [H | H]; [left; subst; apply byte_eqb_refl | right; exact H].
Qed.

Lemma bytes_in_single_false (c : byte) (s t : bytes) :
  (forall x, In x t -> In x s) ->
  bytes_in [c] s = false -> bytes_in [c] t = false.
Proof.
  intros Hincl Hs. destruct (bytes_in [c] t) eqn:E; [|reflexivity].
  apply bytes_in_single in E. apply Hincl, bytes_in_single in E. congruence.
Qed.

Lemma lstrip_incl (s : bytes) (x : byte) : In x (lstrip s) -> In x s.
Proof.
  induction s as [|c s IH]; simpl; [tauto|].
  destruct (isspace c); simpl; tauto.
Qed.

Lemma strip_incl (s : bytes) (x : byte) : In x (strip s) -> In x s.
Proof.
  unfold strip, rstrip. intros H.
  apply (proj2 (in_rev _ _)), lstrip_incl in H.
  apply (proj2 (in_rev _ _)) in H. apply lstrip_incl. exact H.
Qed.

Lemma slice_from_incl (n : nat) (s : bytes) (x : byte) :
  In x (slice_from n s) -> In x s.
Proof.
  unfold slice_from. revert s. induction n as [|n IH]; intros [|c s]; simpl; auto.
Qed.

Lemma lstrip_idem (s : bytes) : lstrip (lstrip s) = lstrip s.
Proof.
  induction s as [|c s IH]; simpl; [reflexivity|].
  destruct (isspace c) eqn:E; [exact IH|]. simpl. rewrite E. reflexivity.
Qed.

Lemma lstrip_head (s t : bytes) (c : byte) :
  lstrip s = c :: t -> isspace c = false.
Proof.
  induction s as [|d s IH]; simpl; [discriminate|].
  destruct (isspace d) eqn:E; [exact IH|]. intros H. congruence.
Qed.

Lemma lstrip_snoc (u : bytes) (c : byte) :
  isspace c = false -> exists u', lstrip (u ++ [c]) = u' ++ [c].
Proof.
  intros Hc. induction u as [|d u [u' IH]]; simpl.
  - rewrite Hc. exists []. reflexivity.
  - destruct (isspace d).
    + exists u'. exact IH.
    + exists (d :: u). reflexivity.
Qed.

Lemma rstrip_idem (s : bytes) : rstrip (rstrip s) = rstrip s.
Proof.
  unfold rstrip. rewrite rev_involutive, lstrip_idem. reflexivity.
Qed.

(** Stripping a stripped text changes nothing. *)
Lemma strip_idem (s : bytes) : strip (strip s) = strip s.
Proof.
  unfold strip. destruct (lstrip s) as [|c t] eqn:E.
  - reflexivity.
  - assert (Hc : isspace c = false) by (eapply lstrip_head; exact E).
    assert (Hr : exists t', rstrip (c :: t) = c :: t').
    { unfold rstrip. simpl. destruct (lstrip_snoc (rev t) c Hc) as [u' Hu].
      rewrite Hu, rev_app_distr. simpl. eexists. reflexivity. }
    destruct Hr as [t' Hr].
    assert (Hl : lstrip (rstrip (c :: t)) = rstrip (c :: t)).
    { rewrite Hr. simpl. rewrite Hc. reflexivity. }
    rewrite Hl. apply rstrip_idem.
Qed.

End BytesFacts.

(** ** The text protocol: [ask], [cmd], [ask_dict], [versions] *)

Section TextProtocol.

Context {W : Type} {T : Transport W}.

(** [ask] is the exchange followed by the check for a device error. *)
Lemma ask_exchange (fuel : nat) (c : pyval) (self self' : MOGDevice W)
    (data : bytes) :
  exchange fuel c self = (Ok data, self') ->
  ask fuel c self =
    (if startswith (strip data) (lit "ERR:")
     then Raise (RuntimeError (PBytes (strip (slice_from 4 (strip data)))))
     else Ok (strip data), self').
Proof.
  unfold exchange, ask, bind. intros H.
  destruct (flush fuel 0 256 self) as [[d|e|] s1]; try discriminate.
  destruct (send c s1) as [[u|e|] s2]; try discriminate.
  destruct (recv fuel 256 s2) as [[x|e|] s3]; try discriminate.
  injection H as -> ->.
  destruct (startswith (strip data) (lit "ERR:")); reflexivity.
Qed.

Lemma not_startswith (s p : bytes) :
  (forall rest, s <> p ++ rest) -> startswith s p = false.
Proof.
  intros H. destruct (startswith s p) eqn:E; [|reflexivity].
  apply startswith_iff in E. destruct E as [r Hr]. elim (H r Hr).
Qed.

Lemma ask_returns (fuel : nat) (c : pyval) (self self' : MOGDevice W)
    (data : bytes) :
  exchange fuel c self = (Ok data, self') ->
  startswith (strip data) (lit "ERR:") = false ->
  ask fuel c self = (Ok (strip data), self').
Proof.
  intros H E. rewrite (ask_exchange _ _ _ _ _ H), E. reflexivity.
Qed.

Lemma ask_raises (fuel : nat) (c : pyval) (self self' : MOGDevice W)
    (data rest : bytes) :
  exchange fuel c self = (Ok data, self') ->
  strip data = lit "ERR:" ++ rest ->
  ask fuel c self = (Raise (RuntimeError (PBytes (strip rest))), self').
Proof.
  intros H E. rewrite (ask_exchange _ _ _ _ _ H), E, startswith_app.
  change 4%nat with (length (lit "ERR:")). rewrite slice_from_app.
  reflexivity.
Qed.

(** A text without a colon does not begin with ["ERR:"]. *)
Lemma no_colon_no_err (r : bytes) :
  bytes_in (lit ":") r = false -> startswith r (lit "ERR:") = false.
Proof.
  intros H. destruct (startswith r (lit "ERR:")) eqn:E; [|reflexivity].
  apply startswith_iff in E. destruct E as [rest ->].
  assert (Hin : bytes_in (lit ":") (lit "ERR:" ++ rest) = true).
  { apply bytes_in_single. simpl. auto. }
  congruence.
Qed.

(** C3. A device response whose trimmed form begins with ["ERR:"] makes
    [ask] fail with the rest of the response, trimmed, as the message; any
    other response is returned trimmed. *)
Theorem ask_response (fuel : nat) (c : pyval) (self self' : MOGDevice W)
    (data : bytes) :
  exchange fuel c self = (Ok data, self') ->
  (forall rest, strip data = lit "ERR:" ++ rest ->
     ask fuel c self = (Raise (RuntimeError (PBytes (strip rest))), self')) /\
  ((forall rest, strip data <> lit "ERR:" ++ rest) ->
     ask fuel c self = (Ok (strip data), self')).
Proof.
  intros H. split.
  - intros rest E. eapply ask_raises; eassumption.
  - intros E. apply ask_returns; [exact H | apply not_startswith; exact E].
Qed.

End TextProtocol.

(** The response ["ERR:foo"] fails carrying ["foo"]. *)
Lemma ask_response_witness :
  let self := Sim.net [lit "ERR:foo" ++ CRLF] in
  let c := PBytes (lit "frequency") in
  exchange 1 c self = (Ok (lit "ERR:foo" ++ CRLF), snd (exchange 1 c self)) /\
  ask 1 c self =
    (Raise (RuntimeError (PBytes (lit "foo"))), snd (exchange 1 c self)).
Proof.
  intros self c.
  assert (H : exchange 1 c self
              = (Ok (lit "ERR:foo" ++ CRLF), snd (exchange 1 c self)))
    by (vm_compute; reflexivity).
  split; [exact H|].
  apply (proj1 (ask_response _ _ _ _ _ H) (lit "foo")).
  vm_compute. reflexivity.
Defined.

(** ** [cmd], [ask_dict] and [versions] on a received response *)

Section Responses.

Context {W : Type} {T : Transport W}.

Lemma cmd_ask (fuel : nat) (c : pyval) (self self' : MOGDevice W) (resp : bytes) :
  ask fuel c self = (Ok resp, self') ->
  cmd fuel c self =
    (if startswith resp (lit "OK") then Ok resp
     else Raise (RuntimeError (PBytes resp)), self').
Proof.
  unfold cmd, bind. intros ->.
  destruct (startswith resp (lit "OK")); reflexivity.
Qed.

(** C6, amended.  [cmd] returns the trimmed response when it begins with
    ["OK"], and only then; a trimmed response that begins with neither
    ["OK"] nor ["ERR:"] is the payload of the error [cmd] raises; a
    response that begins with ["ERR:"] fails, through [ask], with the text
    after the prefix. *)
Theorem cmd_response (fuel : nat) (c : pyval) (self self' : MOGDevice W)
    (data : bytes) :
  exchange fuel c self = (Ok data, self') ->
  (forall rest, strip data = lit "OK" ++ rest ->
     cmd fuel c self = (Ok (strip data), self')) /\
  ((forall rest, strip data <> lit "OK" ++ rest) ->
   (forall rest, strip data <> lit "ERR:" ++ rest) ->
     cmd fuel c self = (Raise (RuntimeError (PBytes (strip data))), self')) /\
  (forall rest, strip data = lit "ERR:" ++ rest ->
     cmd fuel c self = (Raise (RuntimeError (PBytes (strip rest))), self')) /\
  (forall resp s, cmd fuel c self = (Ok resp, s) ->
     exists rest, strip data = lit "OK" ++ rest).
Proof.
  intros H. split; [|split; [|split]].
  - intros rest E.
    assert (Hask : ask fuel c self = (Ok (strip data), self')).
    { apply ask_returns; [exact H | rewrite E; reflexivity]. }
    rewrite (cmd_ask _ _ _ _ _ Hask), E, startswith_app. reflexivity.
  - intros Hok Herr.
    assert (Hask : ask fuel c self = (Ok (strip data), self')).
    { apply ask_returns; [exact H | apply not_startswith; exact Herr]. }
    rewrite (cmd_ask _ _ _ _ _ Hask), (not_startswith _ _ Hok). reflexivity.
  - intros rest E. unfold cmd, bind.
    rewrite (ask_raises _ _ _ _ _ _ H E). reflexivity.
  - intros resp s Hcmd. apply startswith_iff.
    pose proof (ask_exchange _ _ _ _ _ H) as Hask.
    destruct (startswith (strip data) (lit "ERR:")).
    + unfold cmd, bind in Hcmd. rewrite Hask in Hcmd. discriminate.
    + rewrite (cmd_ask _ _ _ _ _ Hask) in Hcmd.
      destruct (startswith (strip data) (lit "OK")); [reflexivity | discriminate].
Qed.

(** The response that [ask_dict] looks for a colon in. *)
Lemma ask_dict_ask (fuel : nat) (c : pyval) (self self' : MOGDevice W)
    (resp : bytes) :
  ask fuel c self = (Ok resp, self') ->
  bytes_in (lit ":")
    (if startswith resp (lit "OK") then strip (slice_from 3 resp) else resp)
    = false ->
  ask_dict fuel c self =
    (Raise (RuntimeError
              (PStr ("Response to " ++ repr c ++ " not a dictionary")%string)),
     self').
Proof.
  unfold ask_dict, bind. intros -> ->. reflexivity.
Qed.

Lemma without_ok_no_err (r : bytes) :
  bytes_in (lit ":")
    (if startswith r (lit "OK") then strip (slice_from 3 r) else r) = false ->
  startswith r (lit "ERR:") = false.
Proof.
  intros H. destruct (startswith r (lit "ERR:")) eqn:E; [|reflexivity].
  apply startswith_iff in E. destruct E as [rest ->].
  change (startswith (lit "ERR:" ++ rest) (lit "OK")) with false in H.
  assert (Hin : bytes_in (lit ":") (lit "ERR:" ++ rest) = true).
  { apply bytes_in_single. simpl. auto. }
  congruence.
Qed.

(** C2. [ask_dict] on the responses ["OK name1:1,name2:2"] and
    ["a:1\nb:2"] returns the two entries in order; a response without a
    colon, once a leading ["OK"] is cut off, fails as not a dictionary. *)
Theorem ask_dict_response (fuel : nat) (c : pyval) (self self' : MOGDevice W)
    (data : bytes) :
  exchange fuel c self = (Ok data, self') ->
  (strip data = lit "OK name1:1,name2:2" ->
     ask_dict fuel c self =
       (Ok [(lit "name1", lit "1"); (lit "name2", lit "2")], self')) /\
  (strip data = lit "a:1" ++ [LF] ++ lit "b:2" ->
     ask_dict fuel c self =
       (Ok [(lit "a", lit "1"); (lit "b", lit "2")], self')) /\
  (bytes_in (lit ":")
     (if startswith (strip data) (lit "OK")
      then strip (slice_from 3 (strip data)) else strip data) = false ->
     ask_dict fuel c self =
       (Raise (RuntimeError
                 (PStr ("Response to " ++ repr c ++ " not a dictionary")%string)),
        self')) /\
  (bytes_in (lit ":") (strip data) = false ->
     ask_dict fuel c self =
       (Raise (RuntimeError
                 (PStr ("Response to " ++ repr c ++ " not a dictionary")%string)),
        self')).
Proof.
  intros H.
  assert (Hcut : bytes_in (lit ":")
            (if startswith (strip data) (lit "OK")
             then strip (slice_from 3 (strip data)) else strip data) = false ->
          ask_dict fuel c self =
            (Raise (RuntimeError
               (PStr ("Response to " ++ repr c ++ " not a dictionary")%string)),
             self')).
  { intros Hno. apply (ask_dict_ask _ _ _ _ (strip data)); [|exact Hno].
    apply ask_returns; [exact H | apply without_ok_no_err; exact Hno]. }
  split; [|split; [|split]].
  - intros E. unfold ask_dict, bind.
    rewrite (ask_returns _ _ _ _ _ H) by (rewrite E; reflexivity).
    rewrite E. reflexivity.
  - intros E. unfold ask_dict, bind.
    rewrite (ask_returns _ _ _ _ _ H) by (rewrite E; reflexivity).
    rewrite E. reflexivity.
  - exact Hcut.
  - intros Hno. apply Hcut.
    destruct (startswith (strip data) (lit "OK")); [|exact Hno].
    apply (bytes_in_single_false _ (strip data)); [|exact Hno].
    intros x Hx. apply strip_incl in Hx. apply slice_from_incl in Hx. exact Hx.
Qed.

(** C5. [versions] on ["OK,UC:1.2,DRV:3.4"] returns the two components; on
    ["Command not defined"] it fails as incompatible firmware; on a
    response without a colon it returns that response under the key
    ["UC"]. *)
Theorem versions_response (fuel : nat) (self self' : MOGDevice W)
    (data : bytes) :
  exchange fuel (PBytes (lit "version")) self = (Ok data, self') ->
  (strip data = lit "OK,UC:1.2,DRV:3.4" ->
     versions fuel self =
       (Ok [(lit "UC", lit "1.2"); (lit "DRV", lit "3.4")], self')) /\
  (strip data = lit "Command not defined" ->
     versions fuel self =
       (Raise (RuntimeError (PStr "Incompatible firmware")), self')) /\
  (bytes_in (lit ":") (strip data) = false ->
   strip data <> lit "Command not defined" ->
     versions fuel self = (Ok [(lit "UC", strip data)], self')).
Proof.
  intros H. split; [|split].
  - intros E. unfold versions, bind.
    rewrite (ask_returns _ _ _ _ _ H) by (rewrite E; reflexivity).
    rewrite E. reflexivity.
  - intros E. unfold versions, bind.
    rewrite (ask_returns _ _ _ _ _ H) by (rewrite E; reflexivity).
    rewrite E. reflexivity.
  - intros Hno Hne. unfold versions, bind.
    rewrite (ask_returns _ _ _ _ _ H) by (apply no_colon_no_err; exact Hno).
    rewrite (proj2 (bytes_eqb_neq _ _) Hne), Hno, strip_idem. reflexivity.
Qed.

(** C1, as the code behaves.  A version response with a colon and without
    a comma makes [versions] split a [bytes] text on the [str] separator
    ["\n"]: the call raises [TypeError], whatever the components are. *)
Theorem versions_newline_form (fuel : nat) (self self' : MOGDevice W)
    (data : bytes) :
  exchange fuel (PBytes (lit "version")) self = (Ok data, self') ->
  (forall rest, strip data <> lit "ERR:" ++ rest) ->
  bytes_in (lit ":") (strip data) = true ->
  bytes_in (lit ",") (strip data) = false ->
  versions fuel self = (Raise TypeError, self').
Proof.
  intros H Herr Hcolon Hcomma. unfold versions, bind.
  rewrite (ask_returns _ _ _ _ _ H) by (apply not_startswith; exact Herr).
  destruct (bytes_eqb (strip data) (lit "Command not defined")) eqn:E.
  - apply bytes_eqb_eq in E. rewrite E in Hcolon. discriminate.
  - rewrite Hcolon, Hcomma. reflexivity.
Qed.

End Responses.

(** The response ["ERR:foo"] does not begin with ["OK"], and the payload of
    the error [cmd] raises is ["foo"]: neither the response as received nor
    the trimmed response. *)
Lemma cmd_response_counterexample :
  let self := Sim.net [lit "ERR:foo" ++ CRLF] in
  let c := PBytes (lit "on,1") in
  exists data self',
    exchange 1 c self = (Ok data, self') /\
    startswith (strip data) (lit "OK") = false /\
    cmd 1 c self = (Raise (RuntimeError (PBytes (lit "foo"))), self') /\
    cmd 1 c self <> (Raise (RuntimeError (PBytes data)), self') /\
    cmd 1 c self <> (Raise (RuntimeError (PBytes (strip data))), self').
Proof.
  intros self c.
  exists (lit "ERR:foo" ++ CRLF), (snd (exchange 1 c self)).
  split; [|split; [|split; [|split]]];
    try (vm_compute; reflexivity); vm_compute; discriminate.
Qed.

(** The responses ["OK"] and ["FAIL"]. *)
Lemma cmd_response_witness :
  let ok := Sim.net [lit "OK" ++ CRLF] in
  let fail := Sim.net [lit "FAIL" ++ CRLF] in
  let c := PBytes (lit "on,1") in
  (exchange 1 c ok = (Ok (lit "OK" ++ CRLF), snd (exchange 1 c ok)) /\
   cmd 1 c ok = (Ok (lit "OK"), snd (exchange 1 c ok))) /\
  (exchange 1 c fail = (Ok (lit "FAIL" ++ CRLF), snd (exchange 1 c fail)) /\
   cmd 1 c fail =
     (Raise (RuntimeError (PBytes (lit "FAIL"))), snd (exchange 1 c fail))).
Proof.
  intros ok fail c.
  assert (Hok : exchange 1 c ok = (Ok (lit "OK" ++ CRLF), snd (exchange 1 c ok)))
    by (vm_compute; reflexivity).
  assert (Hfail : exchange 1 c fail
                  = (Ok (lit "FAIL" ++ CRLF), snd (exchange 1 c fail)))
    by (vm_compute; reflexivity).
  split; split; try assumption.
  - apply (proj1 (cmd_response _ _ _ _ _ Hok) []). vm_compute. reflexivity.
  - apply (proj1 (proj2 (cmd_response _ _ _ _ _ Hfail))).
    + intros rest. vm_compute. discriminate.
    + intros rest. vm_compute. discriminate.
Defined.

(** The responses ["OK name1:1,name2:2"], ["a:1\nb:2"] (on a serial port,
    read line by line) and ["OK"]. *)
Lemma ask_dict_response_witness :
  let c := PBytes (lit "status") in
  let d1 := Sim.net [lit "OK name1:1,name2:2" ++ CRLF] in
  let d2 := Sim.usb [lit "a:1" ++ [LF] ++ lit "b:2" ++ CRLF] in
  let d3 := Sim.net [lit "OK" ++ CRLF] in
  ask_dict 1 c d1 =
    (Ok [(lit "name1", lit "1"); (lit "name2", lit "2")], snd (exchange 1 c d1)) /\
  ask_dict 2 c d2 =
    (Ok [(lit "a", lit "1"); (lit "b", lit "2")], snd (exchange 2 c d2)) /\
  ask_dict 1 c d3 =
    (Raise (RuntimeError (PStr "Response to b'status' not a dictionary")),
     snd (exchange 1 c d3)).
Proof.
  intros c d1 d2 d3.
  assert (H1 : exchange 1 c d1
               = (Ok (lit "OK name1:1,name2:2" ++ CRLF), snd (exchange 1 c d1)))
    by (vm_compute; reflexivity).
  assert (H2 : exchange 2 c d2
               = (Ok (lit "a:1" ++ [LF] ++ lit "b:2" ++ CRLF),
                  snd (exchange 2 c d2)))
    by (vm_compute; reflexivity).
  assert (H3 : exchange 1 c d3 = (Ok (lit "OK" ++ CRLF), snd (exchange 1 c d3)))
    by (vm_compute; reflexivity).
  split; [|split].
  - apply (proj1 (ask_dict_response _ _ _ _ _ H1)). vm_compute. reflexivity.
  - apply (proj1 (proj2 (ask_dict_response _ _ _ _ _ H2))).
    vm_compute. reflexivity.
  - apply (proj2 (proj2 (proj2 (ask_dict_response _ _ _ _ _ H3)))).
    vm_compute. reflexivity.
Defined.

(** The responses ["OK,UC:1.2,DRV:3.4"], ["Command not defined"] and
    ["1.2.3"]. *)
Lemma versions_response_witness :
  let c := PBytes (lit "version") in
  let d1 := Sim.net [lit "OK,UC:1.2,DRV:3.4" ++ CRLF] in
  let d2 := Sim.net [lit "Command not defined" ++ CRLF] in
  let d3 := Sim.usb [lit "1.2.3" ++ CRLF] in
  versions 1 d1 =
    (Ok [(lit "UC", lit "1.2"); (lit "DRV", lit "3.4")], snd (exchange 1 c d1)) /\
  versions 1 d2 =
    (Raise (RuntimeError (PStr "Incompatible firmware")), snd (exchange 1 c d2)) /\
  versions 1 d3 = (Ok [(lit "UC", lit "1.2.3")], snd (exchange 1 c d3)).
Proof.
  intros c d1 d2 d3.
  assert (H1 : exchange 1 c d1
               = (Ok (lit "OK,UC:1.2,DRV:3.4" ++ CRLF), snd (exchange 1 c d1)))
    by (vm_compute; reflexivity).
  assert (H2 : exchange 1 c d2
               = (Ok (lit "Command not defined" ++ CRLF), snd (exchange 1 c d2)))
    by (vm_compute; reflexivity).
  assert (H3 : exchange 1 c d3
               = (Ok (lit "1.2.3" ++ CRLF), snd (exchange 1 c d3)))
    by (vm_compute; reflexivity).
  split; [|split].
  - apply (proj1 (versions_response _ _ _ _ H1)). vm_compute. reflexivity.
  - apply (proj1 (proj2 (versions_response _ _ _ _ H2))).
    vm_compute. reflexivity.
  - apply (proj2 (proj2 (versions_response _ _ _ _ H3))).
    + vm_compute. reflexivity.
    + vm_compute. discriminate.
Defined.

(** The old-firmware response ["UC:1.2\nDRV:3.4"]. *)
Lemma versions_newline_form_witness :
  let c := PBytes (lit "version") in
  let d := Sim.net [lit "UC:1.2" ++ [LF] ++ lit "DRV:3.4" ++ CRLF] in
  exchange 1 c d
    = (Ok (lit "UC:1.2" ++ [LF] ++ lit "DRV:3.4" ++ CRLF), snd (exchange 1 c d)) /\
  versions 1 d = (Raise TypeError, snd (exchange 1 c d)).
Proof.
  intros c d.
  assert (H : exchange 1 c d
              = (Ok (lit "UC:1.2" ++ [LF] ++ lit "DRV:3.4" ++ CRLF),
                 snd (exchange 1 c d)))
    by (vm_compute; reflexivity).
  split; [exact H|].
  apply (versions_newline_form _ _ _ _ H).
  - intros rest. vm_compute. discriminate.
  - vm_compute. reflexivity.
  - vm_compute. reflexivity.
Defined.

(** ** Sending, flushing and the binary protocol *)

Section Framing.

Context {W : Type} {T : Transport W}.

(** C7. A command that does not end with CRLF is written followed by
    CRLF, a command that ends with CRLF is written as it is; a [str]
    command is encoded first. *)
Theorem send_appends_crlf (c : pyval) (self : MOGDevice W) :
  ((forall p, command_bytes c <> p ++ CRLF) ->
     send c self = transmit (command_bytes c ++ CRLF) self) /\
  (forall p, command_bytes c = p ++ CRLF ->
     send c self = transmit (command_bytes c) self).
Proof.
  assert (Hsend : send c self =
            transmit (if negb (endswith (command_bytes c) CRLF)
                      then command_bytes c ++ CRLF else command_bytes c) self).
  { unfold send, transmit, send_raw, bind, if_usb, call, ret, command_bytes.
    destruct c as [x | s];
      match goal with
      | |- context [if negb ?b then _ else _] => destruct b
      end; simpl;
      destruct (is_usb self);
      match goal with
      | |- context [let (_, _) := ?op (dev self) in _] =>
          destruct (op (dev self)) as [[n | e] w]
      end; reflexivity. }
  rewrite Hsend. split.
  - intros Hno. destruct (endswith (command_bytes c) CRLF) eqn:E; [|reflexivity].
    apply endswith_iff in E. destruct E as [q Hq]. elim (Hno q Hq).
  - intros p Hp.
    assert (E : endswith (command_bytes c) CRLF = true)
      by (apply endswith_iff; exists p; exact Hp).
    rewrite E. reflexivity.
Qed.

Lemma flush_loop_no_data (fuel n : nat) (timeout : Q) (buffer : Z)
    (dat : bytes) (self self' : MOGDevice W) :
  has_data timeout self = (Ok false, self') ->
  flush_loop fuel n timeout buffer dat self = (Ok dat, self').
Proof.
  intros H. destruct n; simpl; unfold bind; rewrite H; reflexivity.
Qed.

(** C9. When the first poll of [flush] reports no data, [flush] returns
    the empty buffer and the object is as the poll left it: nothing was
    read.  An [ask] after it runs as it would without the [flush]. *)
Theorem flush_no_data (fuel : nat) (timeout : Q) (buffer : Z)
    (self self' : MOGDevice W) :
  has_data timeout self = (Ok false, self') ->
  flush fuel timeout buffer self = (Ok [], self') /\
  (forall fuel' c,
     (flush fuel timeout buffer ;; ask fuel' c) self = ask fuel' c self').
Proof.
  intros H.
  assert (Hf : flush fuel timeout buffer self = (Ok [], self'))
    by (apply flush_loop_no_data; exact H).
  split; [exact Hf|].
  intros fuel' c. unfold bind at 1. rewrite Hf. reflexivity.
Qed.

(** The loop of [recv_raw] never reaches its bound. *)
Lemma recv_raw_loop_total (n : nat) :
  forall (size : Z) (parts : list bytes) (self : MOGDevice W),
    size <= Z.of_nat n ->
    fst (recv_raw_loop n size parts self) <> OutOfFuel.
Proof.
  induction n as [|n IH]; intros size parts self Hn; simpl.
  - destruct (size >? 0) eqn:E; [lia | simpl; discriminate].
  - destruct (size >? 0) eqn:E; [|simpl; discriminate].
    unfold bind, if_usb, call.
    destruct (is_usb self).
    + destruct (serial_read size (dev self)) as [[chunk | e] w]; simpl;
        [|discriminate].
      destruct (len chunk =? 0) eqn:E0; [simpl; discriminate|].
      apply IH. unfold len in *. lia.
    + destruct (socket_recv size (dev self)) as [[chunk | e] w]; simpl;
        [|discriminate].
      destruct (len chunk =? 0) eqn:E0; [simpl; discriminate|].
      apply IH. unfold len in *. lia.
Qed.

Lemma len_join_snoc (parts : list bytes) (chunk : bytes) :
  len (join (parts ++ [chunk])) = len (join parts) + len chunk.
Proof.
  unfold len, join. rewrite concat_app. simpl.
  rewrite app_nil_r, length_app. lia.
Qed.

(** With bounded reads, the loop of [recv_raw] collects at most [size]
    more bytes. *)
Lemma recv_raw_loop_bound (Hread : bounded_reads) (n : nat) :
  forall (size : Z) (parts parts' : list bytes) (self self' : MOGDevice W),
    recv_raw_loop n size parts self = (Ok parts', self') ->
    len (join parts') <= len (join parts) + Z.max 0 size.
Proof.
  induction n as [|n IH]; intros size parts parts' self self'; simpl.
  - destruct (size >? 0) eqn:E; [discriminate|].
    unfold ret. intros H. injection H as <- <-. lia.
  - destruct (size >? 0) eqn:E.
    2:{ unfold ret. intros H. injection H as <- <-. lia. }
    unfold bind, if_usb, call.
    assert (Hsize : 0 < size) by lia.
    destruct (is_usb self).
    + destruct (serial_read size (dev self)) as [[chunk | e] w] eqn:Er; simpl;
        [|discriminate].
      pose proof (proj2 (Hread size _ _ _ Hsize) Er) as Hc.
      destruct (len chunk =? 0) eqn:E0.
      * unfold ret. intros H. injection H as <- <-. lia.
      * intros H. apply IH in H. rewrite len_join_snoc in H. lia.
    + destruct (socket_recv size (dev self)) as [[chunk | e] w] eqn:Er; simpl;
        [|discriminate].
      pose proof (proj1 (Hread size _ _ _ Hsize) Er) as Hc.
      destruct (len chunk =? 0) eqn:E0.
      * unfold ret. intros H. injection H as <- <-. lia.
      * intros H. apply IH in H. rewrite len_join_snoc in H. lia.
Qed.

Lemma recv_raw_bound (Hread : bounded_reads) (size : Z) (buf : bytes)
    (self self' : MOGDevice W) :
  0 <= size ->
  recv_raw size self = (Ok buf, self') ->
  len buf <= size.
Proof.
  intros Hsize. unfold recv_raw, bind.
  destruct (recv_raw_loop (Z.to_nat size) size [] self) as [[parts | e |] s]
    eqn:E; try discriminate.
  unfold ret. intros H. injection H as <- <-.
  apply (recv_raw_loop_bound Hread) in E. unfold join, len in *. simpl in E. lia.
Qed.

(** When no read raises, the loop of [recv_raw] returns. *)
Lemma recv_raw_loop_returns (Hret : reads_return) (n : nat) :
  forall (size : Z) (parts : list bytes) (self : MOGDevice W),
    size <= Z.of_nat n ->
    exists parts' self', recv_raw_loop n size parts self = (Ok parts', self').
Proof.
  induction n as [|n IH]; intros size parts self Hn; simpl.
  - destruct (size >? 0) eqn:E; [lia|]. eexists _, _. reflexivity.
  - destruct (size >? 0) eqn:E; [|eexists _, _; reflexivity].
    unfold bind, if_usb, call.
    destruct (Hret size (dev self)) as [[cn [wn Hn']] [cu [wu Hu]]].
    destruct (is_usb self).
    + rewrite Hu. simpl.
      destruct (len cu =? 0) eqn:E0; [eexists _, _; reflexivity|].
      apply IH. unfold len in *. lia.
    + rewrite Hn'. simpl.
      destruct (len cn =? 0) eqn:E0; [eexists _, _; reflexivity|].
      apply IH. unfold len in *. lia.
Qed.

(** C10. With reads that return at most what they are asked for,
    [recv_raw] with a non-negative size ends within its loop bound, a
    buffer it returns is at most [size] bytes long, it does return one when
    no read raises, and for size 0 it returns the empty buffer without a
    read. *)
Theorem recv_raw_at_most_size (Hread : bounded_reads) (size : Z)
    (self : MOGDevice W) :
  0 <= size ->
  fst (recv_raw size self) <> OutOfFuel /\
  (forall buf self', recv_raw size self = (Ok buf, self') -> len buf <= size) /\
  (reads_return ->
     exists buf self', recv_raw size self = (Ok buf, self') /\ len buf <= size) /\
  recv_raw 0 self = (Ok [], self).
Proof.
  intros Hsize. split; [|split; [|split]]; cycle 2.
  - intros Hret.
    destruct (recv_raw_loop_returns Hret (Z.to_nat size) size [] self)
      as [parts [s Hl]]; [lia|].
    assert (Hr : recv_raw size self = (Ok (join parts), s))
      by (unfold recv_raw, bind; rewrite Hl; reflexivity).
    exists (join parts), s. split; [exact Hr|].
    apply (recv_raw_bound Hread size _ self s Hsize Hr).
  - reflexivity.
  - unfold recv_raw, bind.
    pose proof (recv_raw_loop_total (Z.to_nat size) size [] self) as Ht.
    destruct (recv_raw_loop (Z.to_nat size) size [] self) as [[parts | e |] s];
      simpl in *; try discriminate.
    intros _. apply Ht; [lia | reflexivity].
  - intros buf self'. apply recv_raw_bound; assumption.
Qed.

Lemma ask_bin_steps (fuel : nat) (c : pyval) (self s1 s2 : MOGDevice W)
    (head : bytes) :
  send c self = (Ok tt, s1) ->
  recv_raw 4 s1 = (Ok head, s2) ->
  ask_bin fuel c self =
    (if bytes_eqb head (lit "ERR:")
     then (data <- recv fuel 256 ;; raise (RuntimeError (PBytes (strip data))))
     else
       (datalen <- pure (unpack_L head) ;;
        data <- recv_raw datalen ;;
        if negb (len data =? datalen)
        then raise (RuntimeError (PStr "Binary response block has incorrect length"))
        else ret data)) s2.
Proof.
  intros Hs Hh. unfold ask_bin. unfold bind at 1. rewrite Hs.
  unfold bind at 1. rewrite Hh. reflexivity.
Qed.

(** [recv] on a socket that delivers [text] and then has nothing more. *)
Lemma recv_socket_single (fuel : nat) (buffer : Z) (self s : MOGDevice W)
    (text : bytes) (w : W) :
  is_usb self = false ->
  socket_recv buffer (dev self) = (Returns text, w) ->
  has_data (if endswith text CRLF then 0%Q else settle) (set_dev w self)
    = (Ok false, s) ->
  recv fuel buffer self = (Ok text, s).
Proof.
  intros Husb Hr Hp. unfold recv, if_usb. rewrite Husb.
  unfold bind at 1. unfold call at 1. rewrite Hr. cbn [of_result].
  destruct fuel; simpl; unfold bind; rewrite Hp; reflexivity.
Qed.

(** [recv] on a serial port that delivers [text] and then nothing more:
    the second [readline] runs with the settle timeout, and the timeout is
    put back after it. *)
Lemma recv_serial_single (fuel : nat) (buffer : Z) (self : MOGDevice W)
    (text : bytes) (wa wb : W) :
  is_usb self = true ->
  text <> [] ->
  serial_readline buffer (dev self) = (Returns text, wa) ->
  serial_readline buffer
    (serial_set_timeout (Some (if endswith text CRLF then 0%Q else settle)) wa)
    = (Returns [], wb) ->
  recv (S fuel) buffer self
  = (Ok text, set_dev (serial_set_timeout (serial_timeout wa) wb) self).
Proof.
  intros Husb Hne H1 H2. unfold recv, if_usb. rewrite Husb.
  destruct text as [|x text]; [contradiction|].
  unfold bind at 1. unfold call at 1. rewrite H1. cbn [of_result].
  change (len (x :: text) =? 0) with false. cbn [negb].
  cbn [recv_serial_loop]. unfold bind, call, ret, set_dev.
  cbn [dev connection is_usb has_dev info of_result]. rewrite H2.
  reflexivity.
Qed.

(** C4. [ask_bin] reads a header of four bytes.  The header ["ERR:"] makes
    it fail with the text response that follows: the text [recv] returns,
    which on a socket and on a serial port is the text the transport
    delivers next.  Any other header is the payload length [N], least
    significant byte first; [recv_raw N] reads the payload, which is
    returned when it has [N] bytes, and an incorrect-length error is raised
    when it has not.  With bounded reads the payload never has more than
    [N] bytes. *)
Theorem ask_bin_response (fuel : nat) (c : pyval) (self s1 : MOGDevice W) :
  send c self = (Ok tt, s1) ->
  (forall s2 data s3,
     recv_raw 4 s1 = (Ok (lit "ERR:"), s2) ->
     recv fuel 256 s2 = (Ok data, s3) ->
     ask_bin fuel c self = (Raise (RuntimeError (PBytes (strip data))), s3)) /\
  (forall s2 text w s3,
     recv_raw 4 s1 = (Ok (lit "ERR:"), s2) ->
     is_usb s2 = false ->
     socket_recv 256 (dev s2) = (Returns text, w) ->
     has_data (if endswith text CRLF then 0%Q else settle) (set_dev w s2)
       = (Ok false, s3) ->
     ask_bin fuel c self = (Raise (RuntimeError (PBytes (strip text))), s3)) /\
  (forall s2 text wa wb,
     recv_raw 4 s1 = (Ok (lit "ERR:"), s2) ->
     is_usb s2 = true ->
     (1 <= fuel)%nat ->
     text <> [] ->
     serial_readline 256 (dev s2) = (Returns text, wa) ->
     serial_readline 256
       (serial_set_timeout (Some (if endswith text CRLF then 0%Q else settle)) wa)
       = (Returns [], wb) ->
     ask_bin fuel c self
     = (Raise (RuntimeError (PBytes (strip text))),
        set_dev (serial_set_timeout (serial_timeout wa) wb) s2)) /\
  (forall b0 b1 b2 b3 s2 data s3,
     recv_raw 4 s1 = (Ok [b0; b1; b2; b3], s2) ->
     [b0; b1; b2; b3] <> lit "ERR:" ->
     let N := Z.of_N (Byte.to_N b0) + 256 * Z.of_N (Byte.to_N b1)
              + 65536 * Z.of_N (Byte.to_N b2)
              + 16777216 * Z.of_N (Byte.to_N b3) in
     recv_raw N s2 = (Ok data, s3) ->
     (len data = N -> ask_bin fuel c self = (Ok data, s3)) /\
     (len data <> N ->
        ask_bin fuel c self =
          (Raise (RuntimeError (PStr "Binary response block has incorrect length")),
           s3)) /\
     (bounded_reads -> len data <= N)).
Proof.
  intros Hs.
  assert (Herr : forall s2 data s3,
            recv_raw 4 s1 = (Ok (lit "ERR:"), s2) ->
            recv fuel 256 s2 = (Ok data, s3) ->
            ask_bin fuel c self
            = (Raise (RuntimeError (PBytes (strip data))), s3)).
  { intros s2 data s3 Hh Hr.
    rewrite (ask_bin_steps _ _ _ _ _ _ Hs Hh). simpl.
    unfold bind. rewrite Hr. reflexivity. }
  split; [exact Herr|]. split; [|split].
  - intros s2 text w s3 Hh Husb Hr Hp.
    apply (Herr s2 text s3 Hh).
    apply (recv_socket_single fuel 256 s2 s3 text w Husb Hr Hp).
  - intros s2 text wa wb Hh Husb Hfuel Hne H1 H2.
    apply (Herr s2 text _ Hh).
    destruct fuel as [|fuel']; [lia|].
    apply (recv_serial_single fuel' 256 s2 text wa wb Husb Hne H1 H2).
  - intros b0 b1 b2 b3 s2 data s3 Hh Hne N Hd.
    rewrite (ask_bin_steps _ _ _ _ _ _ Hs Hh).
    rewrite (proj2 (bytes_eqb_neq _ _) Hne).
    unfold bind at 1. unfold pure, unpack_L, of_result. fold N.
    unfold bind. rewrite Hd.
    split; [|split].
    + intros E. rewrite (proj2 (Z.eqb_eq _ _) E). reflexivity.
    + intros E. rewrite (proj2 (Z.eqb_neq _ _) E). reflexivity.
    + intros Hread. apply (recv_raw_bound Hread N data s2 s3); [|exact Hd].
      unfold N. pose proof (N2Z.is_nonneg (Byte.to_N b0)).
      pose proof (N2Z.is_nonneg (Byte.to_N b1)).
      pose proof (N2Z.is_nonneg (Byte.to_N b2)).
      pose proof (N2Z.is_nonneg (Byte.to_N b3)). lia.
Qed.

End Framing.

(** The scripted transport keeps the read contract. *)
Lemma Sim_bounded_reads : @bounded_reads Sim.chan Sim.transport.
Proof.
  intros size w w' chunk Hsize.
  assert (H : Sim.read size w = (Returns chunk, w') -> len chunk <= size).
  { unfold Sim.read. destruct (Sim.rx w) as [|p ps]; intros E.
    - injection E as <- <-. unfold len. simpl. lia.
    - injection E as <- <-. unfold len.
      pose proof (firstn_le_length (Z.to_nat size) p). lia. }
  split; exact H.
Qed.

Lemma Sim_reads_return : @reads_return Sim.chan Sim.transport.
Proof.
  intros size w.
  assert (H : exists chunk w', Sim.read size w = (Returns chunk, w')).
  { unfold Sim.read. destruct (Sim.rx w); eexists _, _; reflexivity. }
  split; exact H.
Qed.

(** Four bytes asked of a channel that delivers two, then five. *)
Lemma recv_raw_at_most_size_witness :
  let self := Sim.net_pending [lit "ab"; lit "cdefg"] in
  recv_raw 4 self = (Ok (lit "abcd"), snd (recv_raw 4 self)) /\
  len (lit "abcd") <= 4 /\
  fst (recv_raw 4 self) <> OutOfFuel.
Proof.
  intros self.
  assert (Hsize : 0 <= 4) by lia.
  destruct (recv_raw_at_most_size Sim_bounded_reads 4 self Hsize)
    as [Htotal [Hbound _]].
  assert (H : recv_raw 4 self = (Ok (lit "abcd"), snd (recv_raw 4 self)))
    by (vm_compute; reflexivity).
  split; [exact H|]. split; [|exact Htotal].
  exact (Hbound _ _ H).
Defined.

(** A client with nothing waiting: the poll is false and changes nothing. *)
Lemma flush_no_data_witness :
  let self := Sim.net [lit "OK" ++ CRLF] in
  let c := PBytes (lit "on,1") in
  has_data 0 self = (Ok false, self) /\
  flush 3 0 256 self = (Ok [], self) /\
  (flush 3 0 256 ;; ask 1 c) self = ask 1 c self.
Proof.
  intros self c.
  assert (H : has_data 0 self = (Ok false, self)) by (vm_compute; reflexivity).
  destruct (flush_no_data 3 0 256 self self H) as [Hf Ha].
  split; [exact H|]. split; [exact Hf | exact (Ha 1%nat c)].
Defined.

(** The header [05 00 00 00] followed by five bytes, and by three bytes
    before the channel closes; and the answer ["ERR: bad cmd"] on a socket
    and on a serial port. *)
Lemma ask_bin_response_witness :
  let c := PBytes (lit "get") in
  let full := Sim.net [[x05; x00; x00; x00]; lit "abc"; lit "de"] in
  let short := Sim.net [[x05; x00; x00; x00]; lit "abc"] in
  let refused := Sim.net [lit "ERR: bad cmd" ++ CRLF] in
  let refused_usb := Sim.usb [lit "ERR: bad cmd" ++ CRLF] in
  ask_bin 1 c full = (Ok (lit "abcde"), snd (ask_bin 1 c full)) /\
  ask_bin 1 c short =
    (Raise (RuntimeError (PStr "Binary response block has incorrect length")),
     snd (ask_bin 1 c short)) /\
  ask_bin 1 c refused =
    (Raise (RuntimeError (PBytes (lit "bad cmd"))), snd (ask_bin 1 c refused)) /\
  ask_bin 1 c refused_usb =
    (Raise (RuntimeError (PBytes (lit "bad cmd"))),
     snd (ask_bin 1 c refused_usb)).
Proof.
  intros c full short refused refused_usb.
  assert (Hs1 : send c full = (Ok tt, snd (send c full)))
    by (vm_compute; reflexivity).
  assert (Hs2 : send c short = (Ok tt, snd (send c short)))
    by (vm_compute; reflexivity).
  assert (Hs3 : send c refused = (Ok tt, snd (send c refused)))
    by (vm_compute; reflexivity).
  assert (Hs4 : send c refused_usb = (Ok tt, snd (send c refused_usb)))
    by (vm_compute; reflexivity).
  split; [|split; [|split]].
  - refine (proj1 (proj2 (proj2 (proj2 (ask_bin_response 1 c full _ Hs1)))
                     x05 x00 x00 x00 (snd (recv_raw 4 (snd (send c full))))
                     (lit "abcde") (snd (ask_bin 1 c full)) _ _ _) _).
    + vm_compute. reflexivity.
    + vm_compute. discriminate.
    + vm_compute. reflexivity.
    + vm_compute. reflexivity.
  - refine (proj1 (proj2 (proj2 (proj2 (proj2 (ask_bin_response 1 c short _ Hs2)))
                     x05 x00 x00 x00 (snd (recv_raw 4 (snd (send c short))))
                     (lit "abc") (snd (ask_bin 1 c short)) _ _ _)) _).
    + vm_compute. reflexivity.
    + vm_compute. discriminate.
    + vm_compute. reflexivity.
    + vm_compute. discriminate.
  - refine (proj1 (proj2 (ask_bin_response 1 c refused _ Hs3))
              (snd (recv_raw 4 (snd (send c refused))))
              (lit " bad cmd" ++ CRLF)
              (Sim.mkChan [] [] [lit "get" ++ CRLF] 2 (Some 1%Q))
              (snd (ask_bin 1 c refused)) _ _ _ _).
    + vm_compute. reflexivity.
    + reflexivity.
    + vm_compute. reflexivity.
    + vm_compute. reflexivity.
  - refine (proj1 (ask_bin_response 1 c refused_usb _ Hs4)
              (snd (recv_raw 4 (snd (send c refused_usb))))
              (lit " bad cmd" ++ CRLF)
              (snd (ask_bin 1 c refused_usb)) _ _).
    + vm_compute. reflexivity.
    + vm_compute. reflexivity.
Defined.

(** ** Construction: the connection target *)

Create HintDb keeps.

Section Target.

Context {W : Type} {T : Transport W}.

Lemma str_startswith_iff (s p : string) :
  str_startswith s p = true <-> exists rest, s = (p ++ rest)%string.
Proof.
  unfold str_startswith. revert s. induction p as [|a p IH]; intros s; simpl.
  - split; [intros _; exists s; reflexivity | destruct s; reflexivity].
  - destruct s as [|b s].
    + split; [discriminate | intros [rest H]; discriminate].
    + simpl. destruct (ascii_dec a b) as [-> | Hne].
      * rewrite IH. split; intros [rest H]; exists rest; congruence.
      * split; [discriminate | intros [rest H]; congruence].
Qed.

Lemma keeps_ret {A} (a : A) : keeps_target (W := W) (ret a).
Proof. intros self r self' H. injection H as <- <-. auto. Qed.

Lemma keeps_raise {A} (e : exn) : keeps_target (W := W) (A := A) (raise e).
Proof. intros self r self' H. injection H as <- <-. auto. Qed.

Lemma keeps_out_of_fuel {A} : keeps_target (W := W) (A := A) out_of_fuel.
Proof. intros self r self' H. injection H as <- <-. auto. Qed.

Lemma keeps_call {A} (op : W -> result A * W) : keeps_target (call op).
Proof.
  intros self r self'. unfold call. destruct (op (dev self)) as [x w].
  intros H. injection H as <- <-. auto.
Qed.

Lemma keeps_modify (f : MOGDevice W -> MOGDevice W) :
  (forall self, connection (f self) = connection self
                /\ is_usb (f self) = is_usb self) ->
  keeps_target (modify f).
Proof. intros Hf self r self' H. injection H as <- <-. apply Hf. Qed.

Lemma keeps_bind {A B} (m : M W A) (k : A -> M W B) :
  keeps_target m -> (forall a, keeps_target (k a)) -> keeps_target (bind m k).
Proof.
  intros Hm Hk self r self'. unfold bind.
  destruct (m self) as [[a | e |] s] eqn:E; intros H.
  - destruct (Hm _ _ _ E) as [Hc Hu]. destruct (Hk a _ _ _ H) as [Hc' Hu'].
    split; congruence.
  - injection H as <- <-. exact (Hm _ _ _ E).
  - injection H as <- <-. exact (Hm _ _ _ E).
Qed.

Lemma keeps_try_except {A} (m : M W A) (handles : exn -> bool)
    (h : exn -> M W A) :
  keeps_target m -> (forall e, keeps_target (h e)) ->
  keeps_target (try_except m handles h).
Proof.
  intros Hm Hh self r self'. unfold try_except.
  destruct (m self) as [[a | e |] s] eqn:E; intros H.
  - injection H as <- <-. exact (Hm _ _ _ E).
  - destruct (Hm _ _ _ E) as [Hc Hu]. destruct (handles e).
    + destruct (Hh e _ _ _ H) as [Hc' Hu']. split; congruence.
    + injection H as <- <-. auto.
  - injection H as <- <-. exact (Hm _ _ _ E).
Qed.

Lemma keeps_if_usb {A} (usb net : M W A) :
  keeps_target usb -> keeps_target net -> keeps_target (if_usb usb net).
Proof.
  intros Hu Hn self r self'. unfold if_usb.
  destruct (is_usb self) eqn:E; intros H;
    [destruct (Hu _ _ _ H) | destruct (Hn _ _ _ H)]; split; congruence.
Qed.

Lemma keeps_if {A} (b : bool) (m1 m2 : M W A) :
  keeps_target m1 -> keeps_target m2 -> keeps_target (if b then m1 else m2).
Proof. destruct b; auto. Qed.

#[local] Hint Resolve keeps_ret keeps_raise keeps_out_of_fuel keeps_call keeps_bind
  keeps_try_except keeps_if_usb keeps_if : keeps.

Lemma keeps_send (c : pyval) : keeps_target (send c).
Proof. unfold send, send_raw. auto 10 with keeps. Qed.

Lemma keeps_has_data (timeout : Q) : keeps_target (has_data timeout).
Proof. unfold has_data. auto 20 with keeps. Qed.

Lemma keeps_recv_serial_loop (fuel : nat) (buffer : Z) :
  forall data, keeps_target (recv_serial_loop fuel buffer data).
Proof.
  induction fuel as [|fuel IH]; intros data; simpl; auto 10 with keeps.
Qed.

Lemma keeps_recv_socket_loop (fuel : nat) (buffer : Z) (timeout : Q) :
  forall data, keeps_target (recv_socket_loop fuel buffer timeout data).
Proof.
  induction fuel as [|fuel IH]; intros data; simpl;
    apply keeps_bind; try apply keeps_has_data;
    intros [|]; auto with keeps.
  intros self r self' H.
  destruct (call (socket_recv buffer) self) as [[segment | e |] s] eqn:E;
    pose proof (keeps_call _ _ _ _ E) as [Hc Hu].
  - destruct (IH _ _ _ _ H). split; congruence.
  - destruct (is_IOError e && negb (len data =? 0));
      injection H as <- <-; auto.
  - injection H as <- <-. auto.
Qed.

Lemma keeps_recv (fuel : nat) (buffer : Z) : keeps_target (recv fuel buffer).
Proof.
  unfold recv. apply keeps_if_usb.
  - apply keeps_bind; [auto with keeps|]. intros data.
    apply keeps_bind; [|intros; auto with keeps].
    apply keeps_if; [|auto with keeps].
    apply keeps_bind.
    { intros self r self' H. injection H as <- <-. auto. }
    intros t0. apply keeps_bind; [auto with keeps|]. intros _.
    apply keeps_bind; [apply keeps_recv_serial_loop|]. auto with keeps.
  - apply keeps_bind; [auto with keeps|]. intros data.
    apply keeps_recv_socket_loop.
Qed.

Lemma keeps_flush_loop (fuel n : nat) (timeout : Q) (buffer : Z) :
  forall dat, keeps_target (flush_loop fuel n timeout buffer dat).
Proof.
  induction n as [|n IH]; intros dat; simpl;
    apply keeps_bind; try apply keeps_has_data;
    intros [|]; auto with keeps.
  apply keeps_bind; [apply keeps_recv | auto].
Qed.

Lemma keeps_ask (fuel : nat) (c : pyval) : keeps_target (ask fuel c).
Proof.
  unfold ask, flush. apply keeps_bind; [apply keeps_flush_loop|]. intros _.
  apply keeps_bind; [apply keeps_send|]. intros _.
  apply keeps_bind; [apply keeps_recv|]. intros data. auto with keeps.
Qed.

(** [reconnect] leaves [self.connection] and [self.is_usb] as they are. *)
Lemma keeps_reconnect (fuel : nat) (timeout : Q) (check : bool) :
  keeps_target (reconnect fuel timeout check).
Proof.
  assert (Hbind : keeps_target (modify (@bind_dev W)))
    by (apply keeps_modify; intros; split; reflexivity).
  unfold reconnect. apply keeps_bind.
  { intros self r self'. destruct (has_dev self).
    - apply keeps_call.
    - apply keeps_ret. }
  intros _. apply keeps_bind.
  - apply keeps_if_usb.
    + apply keeps_try_except.
      * apply keeps_bind; [|auto].
        intros self r self'. apply keeps_call.
      * intros e. destruct e as [a | | | | | | args | | ]; auto with keeps.
        destruct args as [|[n | msg] l]; auto with keeps.
    + repeat (apply keeps_bind; [auto with keeps | intros _]).
      intros self r self'.
      destruct (str_split ":" (connection self)) as [|a [|p [|x l]]];
        try apply keeps_raise. apply keeps_call.
  - intros _. apply keeps_if; [|auto with keeps].
    apply keeps_try_except; [|auto with keeps].
    apply keeps_bind; [apply keeps_ask|]. intros i.
    apply keeps_modify. intros; split; reflexivity.
Qed.

(** C8. An address that begins with ["COM"], or is ["USB"], selects the
    serial transport: the object is set up with [is_usb] and the first
    word of the port name, [reconnect] runs on it, and both attributes are
    as set when [__init__] ends.  Any other address without a colon, with
    no port given, selects the network transport with the target
    [addr:7802]. *)
Theorem init_target (fuel : nat) (addr : string) (port : option Z)
    (timeout : Q) (check : bool) (w : W) :
  ((exists rest, addr = ("COM" ++ rest)%string) \/ addr = "USB"%string ->
     let conn := split1_head " " (match port with
                                  | Some p => ("COM" ++ fmt_d p)%string
                                  | None => addr
                                  end) in
     let self := snd (__init__ fuel addr port timeout check w) in
     __init__ fuel addr port timeout check w
       = reconnect fuel timeout check (mkMOGDevice conn true false None w) /\
     is_usb self = true /\ connection self = conn) /\
  ((forall rest, addr <> ("COM" ++ rest)%string) -> addr <> "USB"%string ->
   str_in ":" addr = false ->
     let self := snd (__init__ fuel addr None timeout check w) in
     __init__ fuel addr None timeout check w
       = reconnect fuel timeout check
           (mkMOGDevice (addr ++ ":7802") false false None w) /\
     is_usb self = false /\ connection self = (addr ++ ":7802")%string).
Proof.
  split.
  - intros Hserial conn self.
    assert (Htest : str_startswith addr "COM" || String.eqb addr "USB" = true).
    { apply orb_true_iff. destruct Hserial as [Hcom | Husb].
      - left. apply str_startswith_iff. exact Hcom.
      - right. apply String.eqb_eq. exact Husb. }
    assert (Hinit : __init__ fuel addr port timeout check w
                    = reconnect fuel timeout check
                        (mkMOGDevice conn true false None w)).
    { unfold __init__. rewrite Htest. reflexivity. }
    split; [exact Hinit|]. subst self. rewrite Hinit.
    destruct (reconnect fuel timeout check (mkMOGDevice conn true false None w))
      as [r s] eqn:E.
    destruct (keeps_reconnect _ _ _ _ _ _ E) as [Hc Hu]. simpl. auto.
  - intros Hcom Husb Hcolon self.
    assert (Htest : str_startswith addr "COM" || String.eqb addr "USB" = false).
    { apply orb_false_iff. split.
      - destruct (str_startswith addr "COM") eqn:E; [|reflexivity].
        apply str_startswith_iff in E. destruct E as [rest E]. elim (Hcom rest E).
      - apply String.eqb_neq. exact Husb. }
    assert (Hinit : __init__ fuel addr None timeout check w
                    = reconnect fuel timeout check
                        (mkMOGDevice (addr ++ ":7802") false false None w)).
    { unfold __init__. rewrite Htest, Hcolon. reflexivity. }
    split; [exact Hinit|]. subst self. rewrite Hinit.
    destruct (reconnect fuel timeout check
                (mkMOGDevice (addr ++ ":7802") false false None w))
      as [r s] eqn:E.
    destruct (keeps_reconnect _ _ _ _ _ _ E) as [Hc Hu]. simpl. auto.
Qed.

End Target.

(** A serial port name with a description after it, and a bare host. *)
Lemma init_target_witness :
  let w := Sim.mkChan [] [[lit "MOGLabs" ++ CRLF]] [] O None in
  let serial := snd (__init__ 1 "COM3 (USB Serial Port)" None 1 true w) in
  let network := snd (__init__ 1 "10.1.1.23" None 1 true w) in
  (is_usb serial = true /\ connection serial = "COM3"%string) /\
  (is_usb network = false /\ connection network = "10.1.1.23:7802"%string).
Proof.
  intros w serial network.
  destruct (init_target 1 "COM3 (USB Serial Port)" None 1 true w) as [Hs _].
  destruct (init_target 1 "10.1.1.23" None 1 true w) as [_ Hn].
  assert (H1 : forall rest, "10.1.1.23"%string <> ("COM" ++ rest)%string)
    by (intros rest; discriminate).
  assert (H2 : "10.1.1.23"%string <> "USB"%string) by discriminate.
  split.
  - exact (proj2 (Hs (or_introl (ex_intro _ "3 (USB Serial Port)"%string eq_refl)))).
  - exact (proj2 (Hn H1 H2 eq_refl)).
Defined.

(** A [str] command without CRLF and a [bytes] command with it. *)
Lemma send_appends_crlf_witness :
  let self := Sim.net [] in
  send (PStr "info") self = transmit (lit "info" ++ CRLF) self /\
  send (PBytes (lit "info" ++ CRLF)) self = transmit (lit "info" ++ CRLF) self /\
  Sim.tx (dev (snd (send (PStr "info") self))) = [lit "info" ++ CRLF].
Proof.
  intros self.
  destruct (send_appends_crlf (PStr "info") self) as [Hadd _].
  destruct (send_appends_crlf (PBytes (lit "info" ++ CRLF)) self) as [_ Hkeep].
  split; [|split].
  - apply Hadd. intros p. vm_compute.
    destruct p as [|a [|b [|c [|d [|e p]]]]]; discriminate.
  - apply (Hkeep (lit "info")). reflexivity.
  - reflexivity.
Defined.

(** ** The iteration bound

    A call that ends within its bound ends the same way within any larger
    one. *)

Section Fuel.

Context {W : Type} {T : Transport W}.

Lemma bind_finished {A B} (m m' : M W A) (k k' : A -> M W B)
    (self : MOGDevice W) :
  fst (bind m k self) <> OutOfFuel ->
  (fst (m self) <> OutOfFuel -> m' self = m self) ->
  (forall a s, m self = (Ok a, s) ->
     fst (k a s) <> OutOfFuel -> k' a s = k a s) ->
  bind m' k' self = bind m k self.
Proof.
  unfold bind. intros Hfin Hm Hk.
  destruct (m self) as [[a | e |] s] eqn:E; simpl in *.
  - rewrite Hm by discriminate. apply Hk; [reflexivity | exact Hfin].
  - rewrite Hm by discriminate. reflexivity.
  - elim Hfin. reflexivity.
Qed.

Lemma recv_serial_loop_mono (fuel : nat) :
  forall (fuel' : nat) (buffer : Z) (data : bytes) (self : MOGDevice W),
    (fuel <= fuel')%nat ->
    fst (recv_serial_loop fuel buffer data self) <> OutOfFuel ->
    recv_serial_loop fuel' buffer data self
      = recv_serial_loop fuel buffer data self.
Proof.
  induction fuel as [|fuel IH]; intros fuel' buffer data self Hle Hfin.
  - elim Hfin. reflexivity.
  - destruct fuel' as [|fuel']; [lia|]. simpl in *.
    apply bind_finished; [exact Hfin | reflexivity |].
    intros segment s _ Hk. destruct (len segment =? 0); [reflexivity|].
    apply IH; [lia | exact Hk].
Qed.

Lemma recv_socket_loop_mono (fuel : nat) :
  forall (fuel' : nat) (buffer : Z) (timeout : Q) (data : bytes)
         (self : MOGDevice W),
    (fuel <= fuel')%nat ->
    fst (recv_socket_loop fuel buffer timeout data self) <> OutOfFuel ->
    recv_socket_loop fuel' buffer timeout data self
      = recv_socket_loop fuel buffer timeout data self.
Proof.
  induction fuel as [|fuel IH]; intros fuel' buffer timeout data self Hle Hfin.
  - destruct fuel' as [|fuel']; [reflexivity|]. simpl in *.
    apply bind_finished; [exact Hfin | reflexivity |].
    intros [|] s _ Hk; [|reflexivity]. elim Hk. reflexivity.
  - destruct fuel' as [|fuel']; [lia|]. simpl in *.
    apply bind_finished; [exact Hfin | reflexivity |].
    intros [|] s _ Hk; [|reflexivity].
    destruct (call (socket_recv buffer) s) as [[segment | e |] s'];
      try reflexivity.
    apply IH; [lia | exact Hk].
Qed.

Lemma recv_mono (fuel fuel' : nat) (buffer : Z) (self : MOGDevice W) :
  (fuel <= fuel')%nat ->
  fst (recv fuel buffer self) <> OutOfFuel ->
  recv fuel' buffer self = recv fuel buffer self.
Proof.
  intros Hle. unfold recv, if_usb. destruct (is_usb self); intros Hfin.
  - apply bind_finished; [exact Hfin | reflexivity |].
    intros data s _ Hk.
    apply bind_finished; [exact Hk | | reflexivity].
    destruct (negb (len data =? 0)); [|reflexivity]. intros Hm.
    apply bind_finished; [exact Hm | reflexivity |].
    intros t0 s0 _ Hk0.
    apply bind_finished; [exact Hk0 | reflexivity |].
    intros u s1 _ Hk1.
    apply bind_finished; [exact Hk1 | | reflexivity].
    apply recv_serial_loop_mono. exact Hle.
  - apply bind_finished; [exact Hfin | reflexivity |].
    intros data s _ Hk. apply recv_socket_loop_mono; assumption.
Qed.

Lemma flush_loop_mono (n : nat) :
  forall (n' fuel fuel' : nat) (timeout : Q) (buffer : Z) (dat : bytes)
         (self : MOGDevice W),
    (n <= n')%nat -> (fuel <= fuel')%nat ->
    fst (flush_loop fuel n timeout buffer dat self) <> OutOfFuel ->
    flush_loop fuel' n' timeout buffer dat self
      = flush_loop fuel n timeout buffer dat self.
Proof.
  induction n as [|n IH];
    intros n' fuel fuel' timeout buffer dat self Hn Hle Hfin.
  - destruct n' as [|n']; simpl in *;
      (apply bind_finished; [exact Hfin | reflexivity |]);
      intros [|] s _ Hk; try reflexivity; elim Hk; reflexivity.
  - destruct n' as [|n']; [lia|]. simpl in *.
    apply bind_finished; [exact Hfin | reflexivity |].
    intros [|] s _ Hk; [|reflexivity].
    apply bind_finished; [exact Hk | apply recv_mono; exact Hle |].
    intros segment s' _ Hk'. apply IH; [lia | exact Hle | exact Hk'].
Qed.

(** The exchange of [ask], once it ends within the bound, is the same for
    every larger bound. *)
Lemma exchange_mono (fuel fuel' : nat) (c : pyval) (self : MOGDevice W) :
  (fuel <= fuel')%nat ->
  fst (exchange fuel c self) <> OutOfFuel ->
  exchange fuel' c self = exchange fuel c self.
Proof.
  intros Hle Hfin. unfold exchange, flush in *.
  apply bind_finished; [exact Hfin | apply flush_loop_mono; assumption |].
  intros d s _ Hk.
  apply bind_finished; [exact Hk | reflexivity |].
  intros u s' _ Hk'. apply recv_mono; assumption.
Qed.

End Fuel.

(** ** Splitting and joining *)

Section SplitFacts.

Lemma byte_eqb_false (x c : byte) : x <> c -> Byte.eqb x c = false.
Proof.
  intros H. destruct (Byte.eqb x c) eqn:E; [|reflexivity].
  apply byte_eqb_true in E. contradiction.
Qed.

Lemma count_byte_zero (c : byte) (s : bytes) :
  count_byte c s = O <-> ~ In c s.
Proof.
  induction s as [|x s IH]; simpl.
  - tauto.
  - destruct (Byte.eqb x c) eqn:E.
    + apply byte_eqb_true in E. split; [discriminate | intros H; elim H; auto].
    + apply eqb_false in E. simpl. rewrite IH. split.
      * intros H [H1 | H1]; [contradiction | exact (H H1)].
      * intros H H1. apply H. auto.
Qed.

Lemma count_byte_length (c : byte) (s : bytes) :
  (count_byte c s <= length s)%nat.
Proof.
  induction s as [|x s IH]; simpl; [lia|].
  destruct (Byte.eqb x c); lia.
Qed.

Lemma count_byte_app (c : byte) (s t : bytes) :
  count_byte c (s ++ t) = (count_byte c s + count_byte c t)%nat.
Proof.
  induction s as [|x s IH]; simpl; [reflexivity|]. rewrite IH. lia.
Qed.

(** One step of the scan on a one-byte separator. *)
Lemma split_go_cons (c x : byte) (n : nat) (cur s : bytes) :
  split_go [c] n O cur (x :: s) =
    match n with
    | S n' =>
        if Byte.eqb x c then rev cur :: split_go [c] n' O [] s
        else split_go [c] n O (x :: cur) s
    | O => split_go [c] n O (x :: cur) s
    end.
Proof.
  destruct n as [|n']; simpl; [reflexivity|].
  rewrite andb_true_r. reflexivity.
Qed.

(** The scan passes over a stretch without the separator. *)
Lemma split_go_pass (c : byte) (n : nat) (e : bytes) :
  forall cur rest,
    ~ In c e ->
    split_go [c] n O cur (e ++ rest) = split_go [c] n O (rev e ++ cur) rest.
Proof.
  induction e as [|x e IH]; intros cur rest Hno; [reflexivity|].
  assert (Hx : Byte.eqb x c = false)
    by (apply byte_eqb_false; intros ->; apply Hno; left; reflexivity).
  assert (He : ~ In c e) by (intros H; apply Hno; right; exact H).
  change ((x :: e) ++ rest) with (x :: (e ++ rest)).
  rewrite split_go_cons, Hx.
  assert (Hstep : split_go [c] n O (x :: cur) (e ++ rest)
                  = split_go [c] n O (rev (x :: e) ++ cur) rest).
  { rewrite (IH (x :: cur) rest He). simpl. rewrite <- app_assoc. reflexivity. }
  destruct n; exact Hstep.
Qed.

(** Splitting what was joined gives the pieces back, when no piece holds
    the separator and the split limit allows for all of them. *)
Lemma split_go_join (c : byte) (es : list bytes) :
  forall (e cur : bytes) (n : nat),
    (forall x, In x (e :: es) -> ~ In c x) ->
    (length es <= n)%nat ->
    split_go [c] n O cur (join_with c (e :: es)) = (rev cur ++ e) :: es.
Proof.
  induction es as [|e2 es IH]; intros e cur n Hno Hn.
  - simpl. rewrite <- (app_nil_r e) at 1.
    rewrite split_go_pass by (apply Hno; left; reflexivity).
    destruct n; simpl; rewrite rev_app_distr, rev_involutive; reflexivity.
  - change (join_with c (e :: e2 :: es))
      with (e ++ c :: join_with c (e2 :: es)).
    rewrite split_go_pass by (apply Hno; left; reflexivity).
    destruct n as [|n]; [simpl in Hn; lia|].
    rewrite split_go_cons, byte_eqb_refl.
    rewrite rev_app_distr, rev_involutive.
    rewrite (IH e2 [] n).
    + reflexivity.
    + intros x Hx. apply Hno. right. exact Hx.
    + simpl in Hn. lia.
Qed.

(** A text with [k] separators in it splits into [k + 1] pieces. *)
Lemma split_go_length (c : byte) (s : bytes) :
  forall (n : nat) (cur : bytes),
    (count_byte c s <= n)%nat ->
    length (split_go [c] n O cur s) = S (count_byte c s).
Proof.
  induction s as [|x s IH]; intros n cur Hn; [reflexivity|].
  rewrite split_go_cons. simpl in Hn |- *.
  destruct (Byte.eqb x c).
  - destruct n as [|n]; [lia|]. simpl. rewrite IH by lia. reflexivity.
  - assert (Hs : length (split_go [c] n O (x :: cur) s) = S (count_byte c s))
      by (apply IH; lia).
    destruct n; exact Hs.
Qed.

(** No piece of a full split holds the separator. *)
Lemma split_go_free (c : byte) (s : bytes) :
  forall (n : nat) (cur p : bytes),
    (count_byte c s <= n)%nat ->
    ~ In c cur ->
    In p (split_go [c] n O cur s) -> ~ In c p.
Proof.
  induction s as [|x s IH]; intros n cur p Hn Hcur.
  - simpl. intros [<- | []]. rewrite <- in_rev. exact Hcur.
  - rewrite split_go_cons. simpl in Hn.
    destruct (Byte.eqb x c) eqn:E.
    + destruct n as [|n]; [lia|]. intros [<- | Hp].
      * rewrite <- in_rev. exact Hcur.
      * apply (IH n [] p); [lia | intros [] | exact Hp].
    + apply eqb_false in E.
      assert (Hs : In p (split_go [c] n O (x :: cur) s) -> ~ In c p).
      { apply IH; [lia|]. intros [H | H]; [congruence | exact (Hcur H)]. }
      destruct n; exact Hs.
Qed.

Lemma join_with_In (c : byte) (e e2 : bytes) (es : list bytes) :
  In c (join_with c (e :: e2 :: es)).
Proof.
  change (join_with c (e :: e2 :: es)) with (e ++ c :: join_with c (e2 :: es)).
  apply in_or_app. right. left. reflexivity.
Qed.

Lemma join_with_free (c : byte) (es : list bytes) (x : byte) :
  x <> c -> (forall e, In e es -> ~ In x e) -> ~ In x (join_with c es).
Proof.
  intros Hx. induction es as [|e es IH]; intros Hno; [intros []|].
  destruct es as [|e2 es].
  - apply Hno. left. reflexivity.
  - change (join_with c (e :: e2 :: es))
      with (e ++ c :: join_with c (e2 :: es)).
    intros H. apply in_app_or in H. destruct H as [H | [H | H]].
    + exact (Hno e (or_introl eq_refl) H).
    + congruence.
    + revert H. apply IH. intros e' He'. apply Hno. right. exact He'.
Qed.

(** Assigning a new key puts it last; the keys stay distinct. *)
Lemma setitem_fresh (d : odict) (k v : bytes) :
  ~ In k (map fst d) -> setitem d k v = d ++ [(k, v)].
Proof.
  induction d as [|[k' v'] d IH]; simpl; intros Hk; [reflexivity|].
  destruct (bytes_eqb k' k) eqn:E.
  - apply bytes_eqb_eq in E. elim Hk. left. exact E.
  - rewrite IH; [reflexivity|]. intros H. apply Hk. right. exact H.
Qed.

Lemma setitem_keys (d : odict) (k v : bytes) :
  map fst (setitem d k v)
  = if existsb (fun kv => bytes_eqb (fst kv) k) d then map fst d
    else map fst d ++ [k].
Proof.
  induction d as [|[k' v'] d IH]; simpl; [reflexivity|].
  destruct (bytes_eqb k' k) eqn:E; simpl.
  - apply bytes_eqb_eq in E. subst. reflexivity.
  - rewrite IH. destruct (existsb _ d); reflexivity.
Qed.

Lemma setitem_In (d : odict) (k v : bytes) (kv : bytes * bytes) :
  In kv (setitem d k v) -> kv = (k, v) \/ In kv d.
Proof.
  induction d as [|[k' v'] d IH]; simpl.
  - intros [<- | []]. left. reflexivity.
  - destruct (bytes_eqb k' k); simpl.
    + intros [<- | H]; auto.
    + intros [<- | H]; auto. destruct (IH H); auto.
Qed.

Lemma setitem_NoDup (d : odict) (k v : bytes) :
  NoDup (map fst d) -> NoDup (map fst (setitem d k v)).
Proof.
  intros Hd. rewrite setitem_keys.
  destruct (existsb (fun kv => bytes_eqb (fst kv) k) d) eqn:E; [exact Hd|].
  apply NoDup_app; [exact Hd | constructor; [intros [] | constructor] |].
  intros x Hx [<- | []].
  apply in_map_iff in Hx. destruct Hx as [[k' v'] [Hk Hin]]. simpl in Hk. subst.
  assert (Ht : existsb (fun kv => bytes_eqb (fst kv) k) d = true).
  { apply existsb_exists. exists (k, v'). split; [exact Hin|].
    apply bytes_eqb_eq. reflexivity. }
  congruence.
Qed.

Lemma setitem_nonempty (d : odict) (k v : bytes) : setitem d k v <> [].
Proof.
  destruct d as [|[k' v'] d]; simpl; [discriminate|].
  destruct (bytes_eqb k' k); discriminate.
Qed.

End SplitFacts.

(** ** Dictionary responses *)

Section Dictionaries.

Context {W : Type} {T : Transport W}.

Lemma split_colon (entry : bytes) :
  split entry (PBytes (lit ":")) (-1)
  = Returns (split_go [":"%byte] (length entry) O [] entry).
Proof. reflexivity. Qed.

Lemma split_comma (s : bytes) :
  split s (PBytes (lit ",")) (-1)
  = Returns (split_go [","%byte] (length s) O [] s).
Proof. reflexivity. Qed.

Lemma split_LF (s : bytes) :
  split s (PBytes [LF]) (-1) = Returns (split_go [LF] (length s) O [] s).
Proof. reflexivity. Qed.

Lemma join_with_length (c : byte) (es : list bytes) :
  forall e, (length es <= length (join_with c (e :: es)))%nat.
Proof.
  induction es as [|e2 es IH]; intros e; [simpl; lia|].
  change (join_with c (e :: e2 :: es)) with (e ++ c :: join_with c (e2 :: es)).
  rewrite length_app. cbn [length]. specialize (IH e2). lia.
Qed.

(** An entry with exactly one colon splits into its name and value. *)
Lemma split_entry (k v : bytes) :
  ~ In ":"%byte k -> ~ In ":"%byte v ->
  split (render_entry (k, v)) (PBytes (lit ":")) (-1) = Returns [k; v].
Proof.
  intros Hk Hv. rewrite split_colon. f_equal.
  change (render_entry (k, v)) with (join_with ":" [k; v]).
  apply (split_go_join ":" [v] k []).
  - intros x [<- | [<- | []]]; assumption.
  - apply (join_with_length ":" [v] k).
Qed.

(** The loop of [ask_dict] on well-formed entries assigns them in turn. *)
Lemma ask_dict_loop_rendered (d : odict) :
  forall vals,
    (forall k v, In (k, v) d -> ~ In ":"%byte k /\ ~ In ":"%byte v) ->
    ask_dict_loop (map render_entry d) vals
    = Returns (fold_left (fun acc kv => setitem acc (strip (fst kv)) (strip (snd kv)))
                 d vals).
Proof.
  induction d as [|[k v] d IH]; intros vals Hd; [reflexivity|].
  destruct (Hd k v (or_introl eq_refl)) as [Hk Hv].
  simpl map. simpl fold_left. cbn [ask_dict_loop].
  rewrite (split_entry k v Hk Hv). cbn [rbind].
  apply IH. intros k' v' H. apply Hd. right. exact H.
Qed.

Lemma fold_setitem_fresh (d : odict) :
  forall vals,
    NoDup (map fst (vals ++ d)) ->
    (forall k v, In (k, v) d -> strip k = k /\ strip v = v) ->
    fold_left (fun acc kv => setitem acc (strip (fst kv)) (strip (snd kv))) d vals
    = vals ++ d.
Proof.
  induction d as [|[k v] d IH]; intros vals Hnd Hs; simpl.
  - rewrite app_nil_r. reflexivity.
  - destruct (Hs k v (or_introl eq_refl)) as [-> ->].
    assert (Hfresh : ~ In k (map fst vals)).
    { rewrite map_app in Hnd. simpl in Hnd.
      apply NoDup_remove_2 in Hnd. intros H. apply Hnd.
      apply in_or_app. left. exact H. }
    rewrite (setitem_fresh vals k v Hfresh).
    rewrite IH.
    + rewrite <- app_assoc. reflexivity.
    + rewrite <- app_assoc. exact Hnd.
    + intros k' v' H. apply Hs. right. exact H.
Qed.

Lemma render_entry_free (x : byte) (k v : bytes) :
  x <> ":"%byte -> ~ In x k -> ~ In x v -> ~ In x (render_entry (k, v)).
Proof.
  intros Hx Hk Hv H. unfold render_entry in H. simpl in H.
  apply in_app_or in H. destruct H as [H | [H | H]]; [auto | congruence | auto].
Qed.

(** X1. A dictionary a device writes as comma-separated [name:value]
    entries, with distinct names and with names and values that hold no
    separator and no outer whitespace, is returned by [ask_dict] as
    written: the same entries in the same order, the values byte for
    byte.  The text must not begin with ["OK"] or ["ERR:"]. *)
Theorem ask_dict_round_trip (fuel : nat) (c : pyval) (self self' : MOGDevice W)
    (data : bytes) (d : odict) :
  exchange fuel c self = (Ok data, self') ->
  strip data = render d ->
  d <> [] ->
  NoDup (map fst d) ->
  (forall k v, In (k, v) d -> plain k /\ plain v) ->
  (forall rest, render d <> lit "OK" ++ rest) ->
  (forall rest, render d <> lit "ERR:" ++ rest) ->
  ask_dict fuel c self = (Ok d, self').
Proof.
  intros Hex Hdata Hne Hnd Hplain Hok Herr.
  assert (Hask : ask fuel c self = (Ok (render d), self')).
  { rewrite <- Hdata. apply ask_returns; [exact Hex|].
    rewrite Hdata. apply not_startswith. exact Herr. }
  assert (Hcolon : forall k v, In (k, v) d -> ~ In ":"%byte k /\ ~ In ":"%byte v).
  { intros k v H. destruct (Hplain k v H) as [[_ [Hk _]] [_ [Hv _]]]. auto. }
  assert (Hloop : ask_dict_loop (map render_entry d) [] = Returns d).
  { rewrite (ask_dict_loop_rendered d [] Hcolon).
    rewrite (fold_setitem_fresh d []); [reflexivity | exact Hnd |].
    intros k v H. destruct (Hplain k v H) as [[Hk _] [Hv _]]. auto. }
  assert (Hfree : forall x, x <> ":"%byte ->
            (forall k v, In (k, v) d -> ~ In x k /\ ~ In x v) ->
            forall e, In e (map render_entry d) -> ~ In x e).
  { intros x Hx Hd e He. apply in_map_iff in He.
    destruct He as [[k v] [<- Hin]]. destruct (Hd k v Hin).
    apply render_entry_free; assumption. }
  assert (Hcomma : forall e, In e (map render_entry d) -> ~ In ","%byte e).
  { apply Hfree; [discriminate|]. intros k v H.
    destruct (Hplain k v H) as [[_ [_ [Hk _]]] [_ [_ [Hv _]]]]. auto. }
  assert (Hlf : forall e, In e (map render_entry d) -> ~ In LF e).
  { apply Hfree; [discriminate|]. intros k v H.
    destruct (Hplain k v H) as [[_ [_ [_ Hk]]] [_ [_ [_ Hv]]]]. auto. }
  assert (Hhas : bytes_in (lit ":") (render d) = true).
  { apply bytes_in_single. unfold render.
    destruct d as [|[k v] d]; [contradiction|]. simpl map.
    destruct (map render_entry d) as [|e2 es].
    - simpl. apply in_or_app. right. left. reflexivity.
    - change (join_with "," (render_entry (k, v) :: e2 :: es))
        with (render_entry (k, v) ++ "," :: join_with "," (e2 :: es))%byte.
      apply in_or_app. left. apply in_or_app. right. left. reflexivity. }
  unfold ask_dict, bind. rewrite Hask.
  rewrite (not_startswith _ _ Hok), Hhas. cbn [negb].
  unfold pure. f_equal.
  destruct d as [|kv1 [|kv2 d]]; [contradiction | |].
  - assert (Hno : bytes_in (lit ",") (render [kv1]) = false).
    { destruct (bytes_in (lit ",") (render [kv1])) eqn:E; [|reflexivity].
      apply bytes_in_single in E. elim (Hcomma _ (or_introl eq_refl) E). }
    rewrite Hno, split_LF. cbn [rbind].
    change (render [kv1]) with (join_with LF [render_entry kv1]) at 2.
    rewrite (split_go_join LF [] (render_entry kv1) []).
    + simpl app. change [render_entry kv1] with (map render_entry [kv1]).
      rewrite Hloop. reflexivity.
    + intros x [<- | []]. apply Hlf. left. reflexivity.
    + simpl. lia.
  - assert (Hyes : bytes_in (lit ",") (render (kv1 :: kv2 :: d)) = true).
    { apply bytes_in_single. apply join_with_In. }
    rewrite Hyes, split_comma. cbn [rbind].
    unfold render at 2. simpl map.
    rewrite (split_go_join "," (render_entry kv2 :: map render_entry d)
               (render_entry kv1) []).
    + simpl app. change (render_entry kv1 :: render_entry kv2 :: map render_entry d)
        with (map render_entry (kv1 :: kv2 :: d)).
      rewrite Hloop. reflexivity.
    + exact Hcomma.
    + apply (join_with_length "," (render_entry kv2 :: map render_entry d)
               (render_entry kv1)).
Qed.

(** The loop of [ask_dict] fails on the first entry that does not have
    exactly one colon. *)
Lemma ask_dict_loop_malformed (entries : list bytes) :
  forall vals,
    (exists e, In e entries /\ count_byte ":" e <> 1%nat) ->
    ask_dict_loop entries vals = Raises ValueError.
Proof.
  induction entries as [|entry rest IH]; intros vals [e [He Hc]]; [destruct He|].
  cbn [ask_dict_loop]. rewrite split_colon. cbn [rbind].
  pose proof (split_go_length ":" entry (length entry) []
                (count_byte_length _ _)) as Hlen.
  destruct (split_go [":"%byte] (length entry) O [] entry)
    as [|a [|b [|x l]]]; try reflexivity.
  simpl in Hlen. injection Hlen as Hlen.
  apply IH. destruct He as [<- | He]; [congruence|].
  exists e. auto.
Qed.

(** X2. A comma-separated response in which some entry has no colon or
    more than one (a trailing comma, a value with a colon in it) makes
    [ask_dict] raise [ValueError]: no partial dictionary is returned. *)
Theorem ask_dict_malformed_entry (fuel : nat) (c : pyval)
    (self self' : MOGDevice W) (data : bytes) (es : list bytes) :
  exchange fuel c self = (Ok data, self') ->
  strip data = join_with "," es ->
  (2 <= length es)%nat ->
  (forall e, In e es -> ~ In ","%byte e) ->
  (forall rest, strip data <> lit "OK" ++ rest) ->
  (forall rest, strip data <> lit "ERR:" ++ rest) ->
  In ":"%byte (strip data) ->
  (exists e, In e es /\ count_byte ":" e <> 1%nat) ->
  ask_dict fuel c self = (Raise ValueError, self').
Proof.
  intros Hex Hdata Hlen Hcomma Hok Herr Hcolon Hbad.
  assert (Hask : ask fuel c self = (Ok (strip data), self'))
    by (apply ask_returns; [exact Hex | apply not_startswith; exact Herr]).
  assert (Hc : bytes_in (lit ":") (strip data) = true)
    by (apply bytes_in_single; exact Hcolon).
  unfold ask_dict, bind. rewrite Hask, (not_startswith _ _ Hok), Hc.
  cbn [negb].
  destruct es as [|e [|e2 es]]; try (simpl in Hlen; lia).
  assert (Hyes : bytes_in (lit ",") (strip data) = true)
    by (rewrite Hdata; apply bytes_in_single, join_with_In).
  rewrite Hyes, split_comma. unfold pure. cbn [rbind].
  rewrite Hdata at 2.
  rewrite (split_go_join "," (e2 :: es) e []).
  - exact (f_equal (fun r => (of_result r, self'))
             (ask_dict_loop_malformed _ [] Hbad)).
  - exact Hcomma.
  - rewrite Hdata. apply (join_with_length "," (e2 :: es) e).
Qed.

Lemma ask_dict_loop_well_formed (entries : list bytes) :
  forall vals d,
    ask_dict_loop entries vals = Returns d ->
    well_formed vals -> (entries <> [] \/ vals <> []) ->
    well_formed d /\ d <> [].
Proof.
  induction entries as [|entry rest IH]; intros vals d H Hwf Hne.
  - injection H as <-. split; [exact Hwf|]. destruct Hne; [contradiction | assumption].
  - cbn [ask_dict_loop] in H. rewrite split_colon in H. cbn [rbind] in H.
    pose proof (fun p => split_go_free ":" entry (length entry) [] p
                           (count_byte_length _ _) (fun x => x)) as Hfree.
    destruct (split_go [":"%byte] (length entry) O [] entry)
      as [|name [|val [|x l]]]; try discriminate.
    apply (IH _ _ H); [|right; apply setitem_nonempty].
    destruct Hwf as [Hnd Hall]. split; [apply setitem_NoDup; exact Hnd|].
    intros k v Hin. apply setitem_In in Hin. destruct Hin as [E | Hin]; [|auto].
    injection E as -> ->.
    assert (Hn : ~ In ":"%byte name) by (apply Hfree; left; reflexivity).
    assert (Hv : ~ In ":"%byte val) by (apply Hfree; right; left; reflexivity).
    repeat split; try apply strip_idem.
    + intros Hs. apply Hn. apply strip_incl. exact Hs.
    + intros Hs. apply Hv. apply strip_incl. exact Hs.
Qed.

(** X3. Every dictionary [ask_dict] returns has at least one entry, no
    name twice, and names and values that are trimmed and free of colons. *)
Theorem ask_dict_result_well_formed (fuel : nat) (c : pyval)
    (self self' : MOGDevice W) (d : odict) :
  ask_dict fuel c self = (Ok d, self') ->
  d <> [] /\
  NoDup (map fst d) /\
  (forall k v, In (k, v) d ->
     strip k = k /\ strip v = v /\ ~ In ":"%byte k /\ ~ In ":"%byte v).
Proof.
  unfold ask_dict, bind.
  destruct (ask fuel c self) as [[resp | e |] s]; try discriminate.
  set (resp' := if startswith resp (lit "OK") then strip (slice_from 3 resp)
                else resp).
  destruct (negb (bytes_in (lit ":") resp')); [discriminate|].
  unfold pure. intros H.
  assert (Hloop : exists entries,
            entries <> [] /\ ask_dict_loop entries [] = Returns d).
  { destruct (bytes_in (lit ",") resp');
      [rewrite split_comma in H | rewrite split_LF in H]; cbn [rbind] in H.
    - exists (split_go [","%byte] (length resp') O [] resp').
      split.
      + intros E. apply (f_equal (@length bytes)) in E.
        rewrite split_go_length in E by apply count_byte_length. discriminate.
      + destruct (ask_dict_loop _ []); [|discriminate]. simpl in H. congruence.
    - exists (split_go [LF] (length resp') O [] resp').
      split.
      + intros E. apply (f_equal (@length bytes)) in E.
        rewrite split_go_length in E by apply count_byte_length. discriminate.
      + destruct (ask_dict_loop _ []); [|discriminate]. simpl in H. congruence. }
  destruct Hloop as [entries [Hne Hloop]].
  destruct (ask_dict_loop_well_formed entries [] d Hloop) as [[Hnd Hall] Hd].
  - split; [constructor | intros k v []].
  - left. exact Hne.
  - auto.
Qed.

End Dictionaries.

(** ** Receiving *)

Section Receiving.

Context {W : Type} {T : Transport W}.

(** X4. What [ask] returns is trimmed and never begins with ["ERR:"]: a
    device error always surfaces as an exception. *)
Theorem ask_result_clean (fuel : nat) (c : pyval) (self self' : MOGDevice W)
    (resp : bytes) :
  ask fuel c self = (Ok resp, self') ->
  strip resp = resp /\ (forall rest, resp <> lit "ERR:" ++ rest).
Proof.
  unfold ask, bind.
  destruct (flush fuel 0 256 self) as [[d | e |] s1]; try discriminate.
  destruct (send c s1) as [[u | e |] s2]; try discriminate.
  destruct (recv fuel 256 s2) as [[data | e |] s3]; try discriminate.
  destruct (startswith (strip data) (lit "ERR:")) eqn:E; [discriminate|].
  unfold ret. intros H. injection H as <- <-. split.
  - apply strip_idem.
  - intros rest Hr. rewrite Hr, startswith_app in E. discriminate.
Qed.

(** The serial loop of [recv] only adds to the data. *)
Lemma recv_serial_loop_grows (fuel : nat) (buffer : Z) :
  forall (data data' : bytes) (s s' : MOGDevice W),
    recv_serial_loop fuel buffer data s = (Ok data', s') ->
    exists more, data' = data ++ more.
Proof.
  induction fuel as [|fuel IH]; intros data data' s s'; simpl; [discriminate|].
  unfold bind.
  destruct (call (serial_readline buffer) s) as [[segment | e |] s1];
    try discriminate.
  destruct (len segment =? 0).
  - intros H. injection H as <- <-. exists []. rewrite app_nil_r. reflexivity.
  - intros H. apply IH in H. destruct H as [more ->].
    exists (segment ++ more). rewrite app_assoc. reflexivity.
Qed.

Lemma len_zero (s : bytes) : (len s =? 0) = true <-> s = [].
Proof.
  unfold len. destruct s; simpl; split; try reflexivity; try discriminate.
Qed.

(** [recv] on a serial port after a first read that brought data. *)
Lemma recv_serial_steps (fuel : nat) (buffer : Z) (self s1 : MOGDevice W)
    (first : bytes) :
  is_usb self = true ->
  call (serial_readline buffer) self = (Ok first, s1) ->
  first <> [] ->
  recv fuel buffer self =
    match recv_serial_loop fuel buffer first
            (set_dev (serial_set_timeout
                        (Some (if endswith first CRLF then 0%Q else settle))
                        (dev s1)) s1) with
    | (Ok d, s2) =>
        (if len d =? 0 then Raise (RuntimeError (PStr "Timed out")) else Ok d,
         set_dev (serial_set_timeout (serial_timeout (dev s1)) (dev s2)) s2)
    | (Raise e, s2) => (Raise e, s2)
    | (OutOfFuel, s2) => (OutOfFuel, s2)
    end.
Proof.
  intros Husb Hc Hne.
  assert (E0 : (len first =? 0) = false).
  { destruct (len first =? 0) eqn:E; [|reflexivity].
    apply len_zero in E. contradiction. }
  unfold recv, if_usb. rewrite Husb. unfold bind at 1. rewrite Hc.
  rewrite E0. cbn [negb]. unfold bind, call, ret. cbn [of_result].
  destruct (recv_serial_loop fuel buffer first _) as [[d | e |] s2];
    try reflexivity.
  destruct (len d =? 0); reflexivity.
Qed.

(** X5. On a serial port [recv] never returns an empty buffer. *)
Theorem recv_serial_never_empty (fuel : nat) (buffer : Z)
    (self self' : MOGDevice W) (data : bytes) :
  is_usb self = true ->
  recv fuel buffer self = (Ok data, self') ->
  data <> [].
Proof.
  intros Husb.
  destruct (call (serial_readline buffer) self) as [[first | e |] s1] eqn:Ec.
  - destruct first as [|x first].
    + unfold recv, if_usb. rewrite Husb. unfold bind at 1. rewrite Ec.
      discriminate.
    + rewrite (recv_serial_steps _ _ _ _ _ Husb Ec) by discriminate.
      destruct (recv_serial_loop fuel buffer (x :: first) _)
        as [[d | e |] s2] eqn:El; try discriminate.
      apply recv_serial_loop_grows in El. destruct El as [more ->].
      simpl. intros H. injection H as <- <-. discriminate.
  - unfold recv, if_usb. rewrite Husb. unfold bind at 1. rewrite Ec.
    discriminate.
  - unfold recv, if_usb. rewrite Husb. unfold bind at 1. rewrite Ec.
    discriminate.
Qed.

(** X6. An empty first read.  On a serial port [recv] raises
    ["Timed out"]; on a socket, when the poll that follows finds no data,
    [recv] returns the empty buffer. *)
Theorem recv_empty_first_read (fuel : nat) (buffer : Z) (self : MOGDevice W) :
  (is_usb self = true ->
   forall w, serial_readline buffer (dev self) = (Returns [], w) ->
     recv fuel buffer self
     = (Raise (RuntimeError (PStr "Timed out")), set_dev w self)) /\
  (is_usb self = false ->
   forall w s, socket_recv buffer (dev self) = (Returns [], w) ->
     has_data settle (set_dev w self) = (Ok false, s) ->
     recv fuel buffer self = (Ok [], s)).
Proof.
  split; intros Husb.
  - intros w Hr. unfold recv, if_usb. rewrite Husb.
    unfold bind, call. rewrite Hr. reflexivity.
  - intros w s Hr Hp. unfold recv, if_usb. rewrite Husb.
    unfold bind at 1. unfold call at 1. rewrite Hr. cbn [of_result].
    change (endswith [] CRLF) with false. cbv iota.
    destruct fuel; simpl; unfold bind; rewrite Hp; reflexivity.
Qed.

(** X7. An [IOError] of a later read on a socket.  When the first read
    brought data, the error is dropped and [recv] returns the data it has;
    when the first read was empty, the error is raised. *)
Theorem recv_socket_io_error (fuel : nat) (buffer : Z)
    (self s1 s2 s3 : MOGDevice W) (data : bytes) (e : exn) :
  is_usb self = false ->
  call (socket_recv buffer) self = (Ok data, s1) ->
  has_data (if endswith data CRLF then 0%Q else settle) s1 = (Ok true, s2) ->
  call (socket_recv buffer) s2 = (Raise e, s3) ->
  is_IOError e = true ->
  (data <> [] -> recv (S fuel) buffer self = (Ok data, s3)) /\
  (data = [] -> recv (S fuel) buffer self = (Raise e, s3)).
Proof.
  intros Husb Hfirst Hpoll Hnext He.
  assert (Hrecv : recv (S fuel) buffer self =
            (if is_IOError e && negb (len data =? 0) then Ok data else Raise e, s3)).
  { unfold recv, if_usb. rewrite Husb. unfold bind at 1. rewrite Hfirst.
    simpl. unfold bind. rewrite Hpoll, Hnext.
    destruct (is_IOError e && negb (len data =? 0)); reflexivity. }
  rewrite Hrecv, He. split; intros Hd.
  - destruct (len data =? 0) eqn:E; [|reflexivity].
    apply len_zero in E. contradiction.
  - subst data. reflexivity.
Qed.

Lemma call_timeout {A} (op : W -> result A * W) (s s' : MOGDevice W)
    (r : res A) :
  (forall w w' x, op w = (x, w') -> serial_timeout w' = serial_timeout w) ->
  call op s = (r, s') ->
  serial_timeout (dev s') = serial_timeout (dev s).
Proof.
  intros Hop. unfold call. destruct (op (dev s)) as [x w] eqn:E.
  intros H. injection H as <- <-. simpl. eapply Hop. exact E.
Qed.

Lemma recv_serial_loop_timeout (Hst : timeout_stored) (fuel : nat)
    (buffer : Z) :
  forall (data : bytes) (s s' : MOGDevice W) (r : res bytes),
    recv_serial_loop fuel buffer data s = (r, s') ->
    serial_timeout (dev s') = serial_timeout (dev s).
Proof.
  destruct Hst as [_ Hkeep].
  induction fuel as [|fuel IH]; intros data s s' r; simpl.
  - intros H. injection H as <- <-. reflexivity.
  - unfold bind.
    destruct (call (serial_readline buffer) s) as [[segment | e |] s1] eqn:Ec;
      pose proof (call_timeout _ _ _ _ (fun w w' x => Hkeep buffer w w' x) Ec)
        as Ht.
    + destruct (len segment =? 0).
      * intros H. injection H as <- <-. exact Ht.
      * intros H. apply IH in H. congruence.
    + intros H. injection H as <- <-. exact Ht.
    + intros H. injection H as <- <-. exact Ht.
Qed.

(** X8. The serial timeout around [recv], for a port that stores its
    timeout.  When [recv] returns, the timeout is what it was before the
    call.  When a read after the first one raises, [recv] passes the
    exception on with the timeout left at the settle value it had set: 0
    after a complete line, 0.1 otherwise. *)
Theorem recv_serial_timeout (Hst : timeout_stored) (fuel : nat) (buffer : Z)
    (self : MOGDevice W) :
  is_usb self = true ->
  (forall data self',
     recv fuel buffer self = (Ok data, self') ->
     serial_timeout (dev self') = serial_timeout (dev self)) /\
  (forall first s1 e self',
     call (serial_readline buffer) self = (Ok first, s1) ->
     first <> [] ->
     recv fuel buffer self = (Raise e, self') ->
     serial_timeout (dev self')
     = Some (if endswith first CRLF then 0%Q else settle)).
Proof.
  intros Husb.
  pose proof Hst as [Hset Hkeep].
  assert (Hfirst : forall r s1,
            call (serial_readline buffer) self = (r, s1) ->
            serial_timeout (dev s1) = serial_timeout (dev self)).
  { intros r s1. apply call_timeout. intros w w' x. apply Hkeep. }
  split.
  - intros data self' Hr.
    destruct (call (serial_readline buffer) self) as [[first | e |] s1] eqn:Ec.
    + specialize (Hfirst _ _ eq_refl). destruct first as [|x first].
      * unfold recv, if_usb in Hr. rewrite Husb in Hr. unfold bind at 1 in Hr.
        rewrite Ec in Hr. discriminate.
      * rewrite (recv_serial_steps _ _ _ _ _ Husb Ec) in Hr by discriminate.
        destruct (recv_serial_loop fuel buffer (x :: first) _)
          as [[d | e |] s2]; try discriminate.
        injection Hr as _ <-. simpl. rewrite Hset. exact Hfirst.
    + unfold recv, if_usb in Hr. rewrite Husb in Hr. unfold bind at 1 in Hr.
      rewrite Ec in Hr. discriminate.
    + unfold recv, if_usb in Hr. rewrite Husb in Hr. unfold bind at 1 in Hr.
      rewrite Ec in Hr. discriminate.
  - intros first s1 e self' Hc Hne Hr.
    rewrite (recv_serial_steps _ _ _ _ _ Husb Hc Hne) in Hr.
    destruct (recv_serial_loop fuel buffer first _) as [[d | e' |] s2] eqn:El.
    + pose proof El as Hg. apply recv_serial_loop_grows in Hg.
      destruct Hg as [more ->].
      assert (E1 : (len (first ++ more) =? 0) = false).
      { destruct (len (first ++ more) =? 0) eqn:E; [|reflexivity].
        apply len_zero in E. destruct first; [contradiction | discriminate]. }
      rewrite E1 in Hr. discriminate.
    + injection Hr as _ <-.
      apply (recv_serial_loop_timeout Hst) in El. rewrite El. simpl.
      apply Hset.
    + discriminate.
Qed.

(** X9. On a serial port [has_data] never raises [SerialException]: a
    port that was disconnected is reported as having no data. *)
Theorem has_data_serial_exception (timeout : Q) (self : MOGDevice W) :
  is_usb self = true ->
  (forall args s', has_data timeout self <> (Raise (SerialException args), s')) /\
  (forall args w,
     serial_inWaiting (dev self) = (Raises (SerialException args), w) ->
     has_data timeout self = (Ok false, set_dev w self)).
Proof.
  intros Husb. unfold has_data, if_usb. rewrite Husb. unfold try_except. split.
  - intros args s'.
    match goal with
    | |- context [match ?m self with _ => _ end] =>
        destruct (m self) as [[b | e |] s]
    end; try discriminate.
    destruct (is_SerialException e) eqn:E.
    + discriminate.
    + intros H. injection H as -> _. discriminate.
  - intros args w Hw. unfold bind, call. rewrite Hw. reflexivity.
Qed.

(** X10. [flush] ends on a poll that found no data: when it returns, the
    object is as a poll with the answer [False] left it. *)
Theorem flush_ends_idle (fuel : nat) (timeout : Q) (buffer : Z)
    (self self' : MOGDevice W) (dat : bytes) :
  flush fuel timeout buffer self = (Ok dat, self') ->
  exists s, has_data timeout s = (Ok false, self').
Proof.
  unfold flush. generalize fuel at 2. intros n. generalize (@nil byte).
  revert self. induction n as [|n IH]; intros self acc; simpl; unfold bind.
  - destruct (has_data timeout self) as [[[|] | e |] s] eqn:E; try discriminate.
    intros H. injection H as <- <-. exists self. exact E.
  - destruct (has_data timeout self) as [[[|] | e |] s] eqn:E; try discriminate.
    + destruct (recv fuel buffer s) as [[segment | e |] s1]; try discriminate.
      apply IH.
    + intros H. injection H as <- <-. exists self. exact E.
Qed.

End Receiving.

(** ** Binary blocks and commands *)

Section Blocks.

Context {W : Type} {T : Transport W}.

(** X11. A header that stops short of four bytes (the channel closed
    first) makes [ask_bin] raise the error of [unpack]; no payload is
    read. *)
Theorem ask_bin_short_header (fuel : nat) (c : pyval)
    (self s1 s2 : MOGDevice W) (head : bytes) :
  send c self = (Ok tt, s1) ->
  recv_raw 4 s1 = (Ok head, s2) ->
  length head <> 4%nat ->
  ask_bin fuel c self = (Raise StructError, s2).
Proof.
  intros Hs Hh Hlen. rewrite (ask_bin_steps _ _ _ _ _ _ Hs Hh).
  assert (Hne : bytes_eqb head (lit "ERR:") = false).
  { apply bytes_eqb_neq. intros ->. apply Hlen. reflexivity. }
  rewrite Hne. unfold bind, pure.
  destruct head as [|b0 [|b1 [|b2 [|b3 [|b4 l]]]]]; try reflexivity.
  elim Hlen. reflexivity.
Qed.

(** With reads that never come back empty, the loop of [recv_raw] goes on
    until all of [size] is collected. *)
Lemma recv_raw_loop_exact (Hread : bounded_reads) (Hdel : reads_deliver)
    (n : nat) :
  forall (size : Z) (parts parts' : list bytes) (self self' : MOGDevice W),
    0 <= size ->
    recv_raw_loop n size parts self = (Ok parts', self') ->
    len (join parts') = len (join parts) + size.
Proof.
  induction n as [|n IH]; intros size parts parts' self self' Hsize; simpl.
  - destruct (size >? 0) eqn:E; [discriminate|].
    unfold ret. intros H. injection H as <- <-. lia.
  - destruct (size >? 0) eqn:E.
    2:{ unfold ret. intros H. injection H as <- <-. lia. }
    unfold bind, if_usb, call.
    assert (Hpos : 0 < size) by lia.
    destruct (is_usb self).
    + destruct (serial_read size (dev self)) as [[chunk | e] w] eqn:Er; simpl;
        [|discriminate].
      pose proof (proj2 (Hread size _ _ _ Hpos) Er) as Hb.
      pose proof (proj2 (Hdel size _ _ _ Hpos) Er) as Hd.
      destruct (len chunk =? 0) eqn:E0; [lia|].
      intros H. apply IH in H; [|lia]. rewrite len_join_snoc in H. lia.
    + destruct (socket_recv size (dev self)) as [[chunk | e] w] eqn:Er; simpl;
        [|discriminate].
      pose proof (proj1 (Hread size _ _ _ Hpos) Er) as Hb.
      pose proof (proj1 (Hdel size _ _ _ Hpos) Er) as Hd.
      destruct (len chunk =? 0) eqn:E0; [lia|].
      intros H. apply IH in H; [|lia]. rewrite len_join_snoc in H. lia.
Qed.

(** X12. On a channel whose reads are bounded and never come back empty,
    a buffer [recv_raw] returns has exactly [size] bytes, however the data
    was cut into chunks. *)
Theorem recv_raw_exact (Hread : bounded_reads) (Hdel : reads_deliver)
    (size : Z) (self self' : MOGDevice W) (buf : bytes) :
  0 <= size ->
  recv_raw size self = (Ok buf, self') ->
  len buf = size.
Proof.
  intros Hsize. unfold recv_raw, bind.
  destruct (recv_raw_loop (Z.to_nat size) size [] self) as [[parts | e |] s]
    eqn:E; try discriminate.
  unfold ret. intros H. injection H as <- <-.
  apply (recv_raw_loop_exact Hread Hdel) in E; [|exact Hsize].
  unfold join, len in *. simpl in E. lia.
Qed.

Lemma send_crlf_cases (c : pyval) (self : MOGDevice W) :
  (endswith (command_bytes c) CRLF = false /\
   send c self = transmit (command_bytes c ++ CRLF) self) \/
  (endswith (command_bytes c) CRLF = true /\
   send c self = transmit (command_bytes c) self).
Proof.
  assert (Hsend : send c self =
            transmit (if negb (endswith (command_bytes c) CRLF)
                      then command_bytes c ++ CRLF else command_bytes c) self).
  { unfold send, transmit, send_raw, bind, if_usb, call, ret, command_bytes.
    destruct c as [x | s];
      match goal with
      | |- context [if negb ?b then _ else _] => destruct b
      end; simpl;
      destruct (is_usb self);
      match goal with
      | |- context [let (_, _) := ?op (dev self) in _] =>
          destruct (op (dev self)) as [[n | e] w]
      end; reflexivity. }
  rewrite Hsend. destruct (endswith (command_bytes c) CRLF); auto.
Qed.

(** X13. Whatever the command, the bytes [send] writes end with CRLF, and
    sending those bytes again writes the same: the terminator is added
    once and only when it is missing. *)
Theorem send_terminated (c : pyval) (self : MOGDevice W) :
  exists data,
    send c self = transmit data self /\
    endswith data CRLF = true /\
    (forall s : MOGDevice W, send (PBytes data) s = transmit data s).
Proof.
  assert (Hagain : forall data (s : MOGDevice W),
            endswith data CRLF = true -> send (PBytes data) s = transmit data s).
  { intros data s He. destruct (send_crlf_cases (PBytes data) s) as [[E _] | [_ E]].
    - simpl in E. congruence.
    - exact E. }
  destruct (send_crlf_cases c self) as [[He Hs] | [He Hs]].
  - assert (Hend : endswith (command_bytes c ++ CRLF) CRLF = true)
      by (apply endswith_iff; exists (command_bytes c); reflexivity).
    exists (command_bytes c ++ CRLF). split; [exact Hs|]. split; [exact Hend|].
    intros s. apply Hagain. exact Hend.
  - exists (command_bytes c). split; [exact Hs|]. split; [exact He|].
    intros s. apply Hagain. exact He.
Qed.

End Blocks.

(** ** Construction and reconnection *)

Section Construction.

Context {W : Type} {T : Transport W}.

(** X14. [reconnect] with the check is [reconnect] without it followed by
    the query ["info"]: the answer is stored in [self.info], and whatever
    exception the query raises is replaced by ["Device did not respond to
    query"]. *)
Theorem reconnect_check (fuel : nat) (timeout : Q) (self s1 : MOGDevice W) :
  reconnect fuel timeout false self = (Ok tt, s1) ->
  (forall i s2,
     ask fuel (PBytes (lit "info")) s1 = (Ok i, s2) ->
     reconnect fuel timeout true self = (Ok tt, set_info i s2)) /\
  (forall e s2,
     ask fuel (PBytes (lit "info")) s1 = (Raise e, s2) ->
     reconnect fuel timeout true self
     = (Raise (RuntimeError (PStr "Device did not respond to query")), s2)).
Proof.
  unfold reconnect.
  set (closing := fun self : MOGDevice W =>
                    if has_dev self then call dev_close self else ret tt self).
  set (opening := if_usb _ _).
  intros H.
  destruct (closing self) as [[u | e |] sa] eqn:Ec;
    unfold bind at 1 in H; rewrite Ec in H; try discriminate.
  destruct (opening sa) as [[u' | e |] sb] eqn:Eo;
    unfold bind at 1 in H; rewrite Eo in H; try discriminate.
  injection H as <-.
  split.
  - intros i s2 Hask. unfold bind at 1. rewrite Ec.
    unfold bind at 1. rewrite Eo.
    unfold try_except, bind. rewrite Hask. reflexivity.
  - intros e s2 Hask. unfold bind at 1. rewrite Ec.
    unfold bind at 1. rewrite Eo.
    unfold try_except, bind. rewrite Hask. reflexivity.
Qed.

Lemma str_split_length (c : ascii) (s : string) :
  length (str_split c s) = S (str_count c s).
Proof.
  induction s as [|a s IH]; [reflexivity|]. simpl.
  destruct (Ascii.eqb a c); simpl.
  - rewrite IH. reflexivity.
  - destruct (str_split c s) as [|p ps]; [discriminate | exact IH].
Qed.

Lemma str_count_in (c : ascii) (s : string) :
  (1 <= str_count c s)%nat -> str_in (String c EmptyString) s = true.
Proof.
  induction s as [|a s IH]; simpl; [lia|].
  destruct (ascii_dec c a) as [-> | Hne].
  - intros _. destruct s; reflexivity.
  - assert (E : Ascii.eqb a c = false)
      by (apply Ascii.eqb_neq; congruence).
    rewrite E. simpl. intros H. rewrite (IH H), ?orb_true_r. reflexivity.
Qed.

Lemma not_serial (addr : string) :
  (forall rest, addr <> ("COM" ++ rest)%string) -> addr <> "USB"%string ->
  str_startswith addr "COM" || String.eqb addr "USB" = false.
Proof.
  intros Hcom Husb. apply orb_false_iff. split.
  - destruct (str_startswith addr "COM") eqn:E; [|reflexivity].
    apply str_startswith_iff in E. destruct E as [rest E]. elim (Hcom rest E).
  - apply String.eqb_neq. exact Husb.
Qed.

(** X15. A network address with two or more colons in it (an IPv6
    literal) is refused with [ValueError], whether a port is given or not.
    That happens after the socket was created and set up, and before any
    connect: the object is left with the socket bound to [self.dev]. *)
Theorem init_address_with_colons (fuel : nat) (addr : string)
    (port : option Z) (timeout : Q) (check : bool) (w w1 w2 w3 : W) :
  (forall rest, addr <> ("COM" ++ rest)%string) -> addr <> "USB"%string ->
  (2 <= str_count ":" addr)%nat ->
  socket_socket w = (Returns tt, w1) ->
  socket_setsockopt w1 = (Returns tt, w2) ->
  socket_settimeout timeout w2 = (Returns tt, w3) ->
  __init__ fuel addr port timeout check w
  = (Raise ValueError, mkMOGDevice addr false true None w3).
Proof.
  intros Hcom Husb Hcount H1 H2 H3.
  unfold __init__. rewrite (not_serial addr Hcom Husb).
  rewrite (str_count_in ":" addr) by lia. cbn [negb].
  unfold reconnect. unfold bind at 1. cbn [has_dev]. unfold ret at 1.
  unfold bind at 1. unfold if_usb at 1. cbn [is_usb].
  unfold bind, call, modify, bind_dev, set_dev.
  cbn [dev connection is_usb has_dev info]. rewrite H1.
  cbn [dev connection is_usb has_dev info of_result]. rewrite H2.
  cbn [dev connection is_usb has_dev info of_result]. rewrite H3.
  cbn [dev connection is_usb has_dev info of_result].
  pose proof (str_split_length ":" addr) as Hlen.
  destruct (str_split ":" addr) as [|a [|p [|x l]]]; simpl in Hlen;
    try (exfalso; lia); reflexivity.
Qed.

(** X16. Opening a serial port that fails with a [SerialException].  When
    the exception carries a message first (pyserial on Windows), the
    constructor raises a [RuntimeError] with that message up to its first
    colon.  When it carries an error number first (pyserial on POSIX) the
    handler fails on the number, which has no [split], and the constructor
    raises [AttributeError]; with no argument at all it raises
    [IndexError].  In each case nothing is bound to [self.dev] and no query
    is sent. *)
Theorem init_serial_open_fails (fuel : nat) (addr : string) (timeout : Q)
    (check : bool) (w w' : W) (args : list pyobj) :
  (exists rest, addr = ("COM" ++ rest)%string) \/ addr = "USB"%string ->
  serial_Serial (split1_head " " addr) timeout w
    = (Raises (SerialException args), w') ->
  let unbound := mkMOGDevice (split1_head " " addr) true false None w' in
  (forall msg rest, args = OStr msg :: rest ->
     __init__ fuel addr None timeout check w
     = (Raise (RuntimeError (PStr (split1_head ":" msg))), unbound)) /\
  (forall errno rest, args = OInt errno :: rest ->
     __init__ fuel addr None timeout check w = (Raise AttributeError, unbound)) /\
  (args = [] ->
     __init__ fuel addr None timeout check w = (Raise IndexError, unbound)).
Proof.
  intros Hserial Hopen unbound.
  assert (Htest : str_startswith addr "COM" || String.eqb addr "USB" = true).
  { apply orb_true_iff. destruct Hserial as [Hcom | Husb].
    - left. apply str_startswith_iff. exact Hcom.
    - right. apply String.eqb_eq. exact Husb. }
  assert (Hinit : __init__ fuel addr None timeout check w
            = (Raise match args with
                     | [] => IndexError
                     | OStr msg :: _ => RuntimeError (PStr (split1_head ":" msg))
                     | OInt _ :: _ => AttributeError
                     end, unbound)).
  { unfold __init__. rewrite Htest.
    unfold reconnect. unfold bind at 1. cbn [has_dev]. unfold ret at 1.
    unfold bind at 1. unfold if_usb at 1. cbn [is_usb].
    unfold try_except. unfold bind at 1. unfold call. cbn [dev connection].
    rewrite Hopen. destruct args as [|[n | msg] l]; reflexivity. }
  rewrite Hinit. split; [|split].
  - intros msg rest ->. reflexivity.
  - intros errno rest ->. reflexivity.
  - intros ->. reflexivity.
Qed.

End Construction.

(** ** The port argument, timeouts and scripts *)

Section Ports.

Context {W : Type} {T : Transport W}.

Lemma split1_head_absent (c : ascii) (s : string) :
  has_char c s = false -> split1_head c s = s.
Proof.
  induction s as [|a s IH]; simpl; [reflexivity|].
  destruct (Ascii.eqb a c); simpl; [discriminate|].
  intros H. rewrite (IH H). reflexivity.
Qed.

Lemma uint_no_space (d : Decimal.uint) :
  has_char " " (NilEmpty.string_of_uint d) = false.
Proof. induction d; simpl; auto. Qed.

(** A formatted number has no space in it. *)
Lemma fmt_d_no_space (n : Z) : has_char " " (fmt_d n) = false.
Proof.
  unfold fmt_d, NilZero.string_of_int, NilZero.string_of_uint.
  destruct (Z.to_int n) as [d | d]; destruct d; simpl;
    try reflexivity; apply uint_no_space.
Qed.

(** X17. With a port number [p] given: a serial address is replaced by
    [COM<p>]; a network address without a colon gets [:<p>] added; a
    network address with a colon is taken as it is and [p] is not used. *)
Theorem init_port (fuel : nat) (addr : string) (p : Z) (timeout : Q)
    (check : bool) (w : W) :
  let self := snd (__init__ fuel addr (Some p) timeout check w) in
  ((exists rest, addr = ("COM" ++ rest)%string) \/ addr = "USB"%string ->
     is_usb self = true /\ connection self = ("COM" ++ fmt_d p)%string) /\
  ((forall rest, addr <> ("COM" ++ rest)%string) -> addr <> "USB"%string ->
   str_in ":" addr = false ->
     is_usb self = false /\ connection self = (addr ++ ":" ++ fmt_d p)%string) /\
  ((forall rest, addr <> ("COM" ++ rest)%string) -> addr <> "USB"%string ->
   str_in ":" addr = true ->
     __init__ fuel addr (Some p) timeout check w
       = __init__ fuel addr None timeout check w /\
     is_usb self = false /\ connection self = addr).
Proof.
  intros self.
  assert (Hkeep : forall s0, connection (snd (reconnect fuel timeout check s0))
                             = connection s0 /\
                             is_usb (snd (reconnect fuel timeout check s0))
                             = is_usb s0).
  { intros s0. destruct (reconnect fuel timeout check s0) as [r s] eqn:E.
    exact (keeps_reconnect _ _ _ _ _ _ E). }
  split; [|split].
  - intros Hserial.
    assert (Htest : str_startswith addr "COM" || String.eqb addr "USB" = true).
    { apply orb_true_iff. destruct Hserial as [Hcom | Husb].
      - left. apply str_startswith_iff. exact Hcom.
      - right. apply String.eqb_eq. exact Husb. }
    subst self. unfold __init__. rewrite Htest.
    assert (Hconn : split1_head " " ("COM" ++ fmt_d p) = ("COM" ++ fmt_d p)%string).
    { apply split1_head_absent. simpl. apply fmt_d_no_space. }
    rewrite Hconn.
    destruct (Hkeep (mkMOGDevice ("COM" ++ fmt_d p) true false None w)) as [Hc Hu].
    split; [exact Hu | exact Hc].
  - intros Hcom Husb Hcolon. subst self. unfold __init__.
    rewrite (not_serial addr Hcom Husb), Hcolon. cbn [negb].
    destruct (Hkeep (mkMOGDevice (addr ++ ":" ++ fmt_d p) false false None w))
      as [Hc Hu].
    split; [exact Hu | exact Hc].
  - intros Hcom Husb Hcolon. subst self. unfold __init__.
    rewrite (not_serial addr Hcom Husb), Hcolon. cbn [negb].
    destruct (Hkeep (mkMOGDevice addr false false None w)) as [Hc Hu].
    split; [reflexivity|]. split; [exact Hu | exact Hc].
Qed.

End Ports.

Section Timeouts.

Context {W : Type} {T : Transport W} {G : SocketTimeout W}.

(** X18. [set_timeout] on a serial port that stores its timeout returns
    the timeout that was set before.  Given a value it sets it; given
    [None] it changes nothing.  So a timeout of [None] that was read with
    it cannot be put back with it: after [old = set_timeout(v)] and
    [set_timeout(old)] the timeout is [old] only when [old] is a number,
    and stays [v] otherwise. *)
Theorem set_timeout_serial (Hst : timeout_stored) (v : Q)
    (self : MOGDevice W) :
  is_usb self = true ->
  let old := serial_timeout (dev self) in
  let s1 := snd (set_timeout (Some v) self) in
  let s2 := snd (set_timeout old s1) in
  set_timeout (Some v) self = (Ok old, s1) /\
  serial_timeout (dev s1) = Some v /\
  set_timeout None s1 = (Ok (Some v), s1) /\
  set_timeout old s1 = (Ok (Some v), s2) /\
  serial_timeout (dev s2) = match old with
                            | Some t => Some t
                            | None => Some v
                            end.
Proof.
  intros Husb old s1 s2. destruct Hst as [Hset _].
  assert (H1 : set_timeout (Some v) self
               = (Ok old, set_dev (serial_set_timeout (Some v) (dev self)) self)).
  { unfold set_timeout, if_usb. rewrite Husb. reflexivity. }
  assert (Hs1 : s1 = set_dev (serial_set_timeout (Some v) (dev self)) self)
    by (unfold s1; rewrite H1; reflexivity).
  assert (Ht1 : serial_timeout (dev s1) = Some v)
    by (rewrite Hs1; simpl; apply Hset).
  assert (Hu1 : is_usb s1 = true) by (rewrite Hs1; exact Husb).
  assert (Hnone : set_timeout None s1 = (Ok (Some v), s1)).
  { unfold set_timeout, if_usb. rewrite Hu1. unfold bind, ret.
    rewrite Ht1. reflexivity. }
  split; [rewrite H1, Hs1; reflexivity|]. split; [exact Ht1|].
  split; [exact Hnone|].
  destruct old as [t|] eqn:Eold.
  - assert (H2 : set_timeout (Some t) s1
                 = (Ok (Some v), set_dev (serial_set_timeout (Some t) (dev s1)) s1)).
    { unfold set_timeout, if_usb. rewrite Hu1. unfold bind, ret, call.
      rewrite Ht1. reflexivity. }
    unfold s2. rewrite H2. split; [reflexivity|]. simpl. apply Hset.
  - unfold s2. rewrite Hnone. split; [reflexivity | exact Ht1].
Qed.

End Timeouts.

Section Scripts.

Lemma str_rstrip_idem (s : string) : str_rstrip (str_rstrip s) = str_rstrip s.
Proof.
  induction s as [|a s IH]; [reflexivity|]. simpl.
  destruct (str_rstrip s) as [|b t] eqn:E.
  - destruct (str_isspace a) eqn:Ea; [reflexivity|]. simpl. rewrite Ea.
    reflexivity.
  - change (str_rstrip (String a (String b t)))
      with (match str_rstrip (String b t) with
            | EmptyString => if str_isspace a then EmptyString
                             else String a EmptyString
            | u => String a u
            end).
    rewrite IH. reflexivity.
Qed.

Lemma str_lstrip_head (s t : string) (a : ascii) :
  str_lstrip s = String a t -> str_isspace a = false.
Proof.
  induction s as [|b s IH]; simpl; [discriminate|].
  destruct (str_isspace b) eqn:E; [exact IH|]. intros H. congruence.
Qed.

Lemma str_rstrip_head (a : ascii) (t : string) :
  str_isspace a = false -> exists u, str_rstrip (String a t) = String a u.
Proof.
  intros Ha. simpl. destruct (str_rstrip t).
  - rewrite Ha. eexists. reflexivity.
  - eexists. reflexivity.
Qed.

(** Stripping a stripped line changes nothing. *)
Lemma str_strip_idem (s : string) : str_strip (str_strip s) = str_strip s.
Proof.
  unfold str_strip. destruct (str_lstrip s) as [|a t] eqn:E; [reflexivity|].
  pose proof (str_lstrip_head _ _ _ E) as Ha.
  destruct (str_rstrip_head a t Ha) as [u Hu].
  assert (Hl : str_lstrip (str_rstrip (String a t)) = str_rstrip (String a t)).
  { rewrite Hu. simpl. rewrite Ha. reflexivity. }
  rewrite Hl. apply str_rstrip_idem.
Qed.

Lemma str_lstrip_chars (c : ascii) (s : string) :
  has_char c s = false -> has_char c (str_lstrip s) = false.
Proof.
  induction s as [|a s IH]; simpl; [reflexivity|].
  intros H. apply orb_false_iff in H. destruct H as [Ha Hs].
  destruct (str_isspace a); [auto|]. simpl. rewrite Ha, Hs. reflexivity.
Qed.

Lemma str_rstrip_chars (c : ascii) (s : string) :
  has_char c s = false -> has_char c (str_rstrip s) = false.
Proof.
  induction s as [|a s IH]; simpl; [reflexivity|].
  intros H. apply orb_false_iff in H. destruct H as [Ha Hs].
  specialize (IH Hs). destruct (str_rstrip s) as [|b t].
  - destruct (str_isspace a); simpl; [reflexivity|]. rewrite Ha. reflexivity.
  - simpl in *. rewrite Ha. exact IH.
Qed.

Lemma split1_head_chars (c : ascii) (s : string) :
  has_char c (split1_head c s) = false.
Proof.
  induction s as [|a s IH]; simpl; [reflexivity|].
  destruct (Ascii.eqb a c) eqn:E; simpl; [reflexivity|].
  rewrite E. exact IH.
Qed.

(** What the loop of [load_script] yields, by position in the file. *)
Lemma load_script_from_In (lines : list string) :
  forall (k n : Z) (text : string),
    In (n, text) (load_script_from k lines) <->
    exists i line,
      nth_error lines i = Some line /\
      n = k + 1 + Z.of_nat i /\
      text = str_strip (split1_head "#" line) /\
      text <> EmptyString.
Proof.
  induction lines as [|line lines IH]; intros k n text.
  - simpl. split; [intros [] | intros [[|i] [l [H _]]]; discriminate].
  - assert (Hrest : In (n, text) (load_script_from (k + 1) lines) <->
              exists i l, nth_error (line :: lines) (S i) = Some l /\
                n = k + 1 + Z.of_nat (S i) /\
                text = str_strip (split1_head "#" l) /\ text <> EmptyString).
    { rewrite IH. split; intros [i [l [H1 [H2 [H3 H4]]]]]; exists i, l;
        repeat split; try assumption; lia. }
    cbn [load_script_from].
    destruct (String.length (str_strip (split1_head "#" line)) =? 0)%nat eqn:E.
    + apply Nat.eqb_eq in E.
      assert (Hempty : str_strip (split1_head "#" line) = EmptyString)
        by (destruct (str_strip (split1_head "#" line)); [reflexivity | discriminate]).
      rewrite Hrest. split.
      * intros [i [l H]]. exists (S i), l. exact H.
      * intros [[|i] [l [H1 [H2 [H3 H4]]]]].
        -- injection H1 as <-. congruence.
        -- exists i, l. auto.
    + apply Nat.eqb_neq in E.
      assert (Hfull : str_strip (split1_head "#" line) <> EmptyString)
        by (intros H; rewrite H in E; apply E; reflexivity).
      simpl In. rewrite Hrest. split.
      * intros [H | [i [l H]]].
        -- injection H as <- <-. exists O, line. simpl.
           repeat split; try assumption; lia.
        -- exists (S i), l. exact H.
      * intros [[|i] [l [H1 [H2 [H3 H4]]]]].
        -- left. injection H1 as <-. subst. f_equal. simpl. lia.
        -- right. exists i, l. auto.
Qed.

Lemma load_script_from_above (lines : list string) :
  forall (k n : Z) (text : string),
    In (n, text) (load_script_from k lines) -> k < n.
Proof.
  intros k n text H. apply load_script_from_In in H.
  destruct H as [i [l [_ [-> _]]]]. lia.
Qed.

Lemma load_script_from_sorted (lines : list string) :
  forall k, StronglySorted Z.lt (map fst (load_script_from k lines)).
Proof.
  induction lines as [|line lines IH]; intros k; [constructor|].
  cbn [load_script_from].
  destruct (String.length (str_strip (split1_head "#" line)) =? 0)%nat;
    [apply IH|].
  simpl. constructor; [apply IH|].
  apply Forall_forall. intros n Hn. apply in_map_iff in Hn.
  destruct Hn as [[n' text] [<- Hin]]. simpl.
  apply load_script_from_above in Hin. exact Hin.
Qed.

(** X19. [load_script] yields, in file order, the lines that are not
    blank once the comment is cut off, each with its 1-based number in the
    file: [(n, text)] is yielded exactly when line [n] of the file, cut at
    its first [#] and stripped, is the non-empty [text]. *)
Theorem load_script_lines (lines : list string) :
  StronglySorted Z.lt (map fst (load_script lines)) /\
  (forall n text,
     In (n, text) (load_script lines) <->
     1 <= n /\
     exists line,
       nth_error lines (Z.to_nat (n - 1)) = Some line /\
       text = str_strip (split1_head "#" line) /\
       text <> EmptyString).
Proof.
  split; [apply load_script_from_sorted|].
  intros n text. unfold load_script. rewrite load_script_from_In. split.
  - intros [i [line [H1 [H2 [H3 H4]]]]]. split; [lia|].
    exists line. replace (Z.to_nat (n - 1)) with i by lia. auto.
  - intros [Hn [line [H1 [H3 H4]]]].
    exists (Z.to_nat (n - 1)), line. repeat split; try assumption. lia.
Qed.

(** X20. Each text [load_script] yields is non-empty, has no [#] in it
    and no whitespace at either end. *)
Theorem load_script_text (lines : list string) (n : Z) (text : string) :
  In (n, text) (load_script lines) ->
  text <> EmptyString /\
  has_char "#" text = false /\
  str_strip text = text.
Proof.
  intros H. apply load_script_from_In in H.
  destruct H as [i [line [_ [_ [-> Hne]]]]].
  split; [exact Hne|]. split.
  - unfold str_strip. apply str_rstrip_chars, str_lstrip_chars.
    apply split1_head_chars.
  - apply str_strip_idem.
Qed.

End Scripts.

(** ** Version strings *)

Section Versions.

Context {W : Type} {T : Transport W}.

Lemma split_colon2 (l : bytes) :
  split l (PBytes (lit ":")) 2 = Returns (split_go [":"%byte] 2 O [] l).
Proof. reflexivity. Qed.

Lemma split_entry2 (k v : bytes) :
  ~ In ":"%byte k -> ~ In ":"%byte v ->
  split (render_entry (k, v)) (PBytes (lit ":")) 2 = Returns [k; v].
Proof.
  intros Hk Hv. rewrite split_colon2. f_equal.
  change (render_entry (k, v)) with (join_with ":" [k; v]).
  apply (split_go_join ":" [v] k []).
  - intros x [<- | [<- | []]]; assumption.
  - simpl. lia.
Qed.

(** An entry begins with ["OK"] only when its name does. *)
Lemma render_entry_not_ok (k v : bytes) :
  (forall rest, k <> lit "OK" ++ rest) ->
  startswith (render_entry (k, v)) (lit "OK") = false.
Proof.
  intros Hk. apply not_startswith. intros rest H.
  unfold render_entry in H. simpl in H.
  destruct k as [|x [|y k]]; simpl in H.
  - discriminate.
  - injection H as _ H. discriminate.
  - injection H as -> -> _. apply (Hk k). reflexivity.
Qed.

(** The loop of [versions] on components without a space in the version
    assigns them in turn. *)
Lemma versions_loop_rendered (d : odict) :
  forall vers,
    (forall kv, In kv d -> component kv /\ ~ In " "%byte (strip (snd kv))) ->
    versions_loop (map render_entry d) vers
    = Returns (fold_left (fun acc kv => setitem acc (strip (fst kv)) (strip (snd kv)))
                 d vers).
Proof.
  induction d as [|[k v] d IH]; intros vers Hd; [reflexivity|].
  destruct (Hd (k, v) (or_introl eq_refl)) as [[Hk [Hv Hok]] Hsp].
  simpl in Hk, Hv, Hok, Hsp.
  simpl map. simpl fold_left. cbn [versions_loop].
  rewrite (render_entry_not_ok k v Hok), (split_entry2 k v Hk Hv).
  cbn [rbind].
  assert (Hno : bytes_in (lit " ") (strip v) = false).
  { destruct (bytes_in (lit " ") (strip v)) eqn:E; [|reflexivity].
    apply bytes_in_single in E. contradiction. }
  rewrite Hno. cbn [rbind].
  apply IH. intros kv H. apply Hd. right. exact H.
Qed.

(** The loop of [versions] fails on the first version with a space in it:
    [rsplit] is called with a [str]. *)
Lemma versions_loop_space (d : odict) :
  forall vers,
    (forall kv, In kv d -> component kv) ->
    (exists kv, In kv d /\ In " "%byte (strip (snd kv))) ->
    versions_loop (map render_entry d) vers = Raises TypeError.
Proof.
  induction d as [|[k v] d IH]; intros vers Hd [kv [Hin Hsp]]; [destruct Hin|].
  destruct (Hd (k, v) (or_introl eq_refl)) as [Hk [Hv Hok]].
  simpl in Hk, Hv, Hok.
  simpl map. cbn [versions_loop].
  rewrite (render_entry_not_ok k v Hok), (split_entry2 k v Hk Hv).
  cbn [rbind].
  destruct (bytes_in (lit " ") (strip v)) eqn:E; [reflexivity|].
  cbn [rbind]. apply IH.
  - intros kv' H. apply Hd. right. exact H.
  - destruct Hin as [<- | Hin].
    + simpl in Hsp. apply bytes_in_single in Hsp.
      change [" "%byte] with (lit " ") in Hsp. congruence.
    + exists kv. auto.
Qed.

(** The pieces of a version response ["OK,name:version,..."]. *)
Lemma versions_pieces (d : odict) (e : bytes * bytes) :
  (forall kv, In kv (e :: d) ->
     ~ In ","%byte (fst kv) /\ ~ In ","%byte (snd kv)) ->
  split (lit "OK," ++ render (e :: d)) (PBytes (lit ",")) (-1)
  = Returns (lit "OK" :: map render_entry (e :: d)).
Proof.
  intros Hd. rewrite split_comma. f_equal.
  change (lit "OK," ++ render (e :: d))
    with (join_with "," (lit "OK" :: map render_entry (e :: d))).
  apply (split_go_join "," (map render_entry (e :: d)) (lit "OK") []).
  - intros x [<- | Hx].
    + simpl. intros [H | [H | []]]; discriminate.
    + apply in_map_iff in Hx. destruct Hx as [[k v] [<- Hin]].
      destruct (Hd (k, v) Hin) as [Hk Hv].
      apply render_entry_free; [discriminate | exact Hk | exact Hv].
  - apply (join_with_length "," (map render_entry (e :: d)) (lit "OK")).
Qed.

Lemma versions_ask (fuel : nat) (self self' : MOGDevice W) (data : bytes)
    (d : odict) (e : bytes * bytes) :
  exchange fuel (PBytes (lit "version")) self = (Ok data, self') ->
  strip data = lit "OK," ++ render (e :: d) ->
  (forall kv, In kv (e :: d) ->
     ~ In ","%byte (fst kv) /\ ~ In ","%byte (snd kv)) ->
  versions fuel self
  = (of_result (versions_loop (map render_entry (e :: d)) []), self').
Proof.
  intros Hex Hdata Hd.
  assert (Hask : ask fuel (PBytes (lit "version")) self = (Ok (strip data), self')).
  { apply ask_returns; [exact Hex | rewrite Hdata; reflexivity]. }
  unfold versions, bind. rewrite Hask, Hdata.
  change (bytes_eqb (lit "OK," ++ render (e :: d)) (lit "Command not defined"))
    with false. cbv iota.
  assert (Hcolon : bytes_in (lit ":") (lit "OK," ++ render (e :: d)) = true).
  { apply bytes_in_single. apply in_or_app. right. unfold render. simpl map.
    destruct (map render_entry d) as [|e2 es].
    - simpl. apply in_or_app. right. left. reflexivity.
    - change (join_with "," (render_entry e :: e2 :: es))
        with (render_entry e ++ "," :: join_with "," (e2 :: es))%byte.
      apply in_or_app. left. apply in_or_app. right. left. reflexivity. }
  assert (Hcomma : bytes_in (lit ",") (lit "OK," ++ render (e :: d)) = true).
  { apply bytes_in_single. simpl. auto. }
  rewrite Hcolon, Hcomma, (versions_pieces d e Hd). unfold pure.
  cbn [rbind versions_loop]. reflexivity.
Qed.

(** X21. A version response ["OK,name:version,..."] whose names are
    distinct and whose names and versions hold no separator, no space and
    no outer whitespace, with no name beginning with ["OK"], is returned
    by [versions] as written, in order. *)
Theorem versions_round_trip (fuel : nat) (self self' : MOGDevice W)
    (data : bytes) (d : odict) :
  exchange fuel (PBytes (lit "version")) self = (Ok data, self') ->
  strip data = lit "OK," ++ render d ->
  d <> [] ->
  NoDup (map fst d) ->
  (forall k v, In (k, v) d ->
     plain k /\ plain v /\ ~ In " "%byte v /\
     (forall rest, k <> lit "OK" ++ rest)) ->
  versions fuel self = (Ok d, self').
Proof.
  intros Hex Hdata Hne Hnd Hd.
  destruct d as [|e d]; [contradiction|].
  rewrite (versions_ask _ _ _ _ _ _ Hex Hdata).
  - rewrite versions_loop_rendered.
    + rewrite (fold_setitem_fresh (e :: d) []); [reflexivity | exact Hnd |].
      intros k v H. destruct (Hd k v H) as [[Hk _] [[Hv _] _]]. auto.
    + intros [k v] H.
      destruct (Hd k v H) as [[_ [Hk _]] [[Hsv [Hv _]] [Hsp Hok]]].
      split; [split; [|split]; assumption|]. simpl. rewrite Hsv. exact Hsp.
  - intros [k v] H.
    destruct (Hd k v H) as [[_ [_ [Hk _]]] [[_ [_ [Hv _]]] _]]. auto.
Qed.

(** X22. In the same form of response, one component whose trimmed
    version has a space in it (["1.2 beta"]) makes [versions] raise
    [TypeError]: the version is split on the [str] [" "]. *)
Theorem versions_space_in_version (fuel : nat) (self self' : MOGDevice W)
    (data : bytes) (d : odict) :
  exchange fuel (PBytes (lit "version")) self = (Ok data, self') ->
  strip data = lit "OK," ++ render d ->
  (forall k v, In (k, v) d ->
     ~ In ":"%byte k /\ ~ In ":"%byte v /\
     ~ In ","%byte k /\ ~ In ","%byte v /\
     (forall rest, k <> lit "OK" ++ rest)) ->
  (exists k v, In (k, v) d /\ In " "%byte (strip v)) ->
  versions fuel self = (Raise TypeError, self').
Proof.
  intros Hex Hdata Hd [k [v [Hin Hsp]]].
  destruct d as [|e d]; [destruct Hin|].
  rewrite (versions_ask _ _ _ _ _ _ Hex Hdata).
  - rewrite versions_loop_space; [reflexivity | |].
    + intros [k' v'] H. destruct (Hd k' v' H) as [Hk [Hv [_ [_ Hok]]]].
      split; [|split]; assumption.
    + exists (k, v). auto.
  - intros [k' v'] H. destruct (Hd k' v' H) as [_ [_ [Hk [Hv _]]]]. auto.
Qed.

End Versions.

(** ** The further properties at concrete inputs *)

Ltac in_cases H :=
  repeat (destruct H as [H | H]; [injection H as <- <- |]); try destruct H.

Ltac plain_bytes :=
  unfold plain; split; [vm_compute; reflexivity |];
  repeat split; simpl; intuition discriminate.

(** The response ["temp:25.1,mode:auto"]. *)
Lemma ask_dict_round_trip_witness :
  let c := PBytes (lit "status") in
  let self := Sim.net [lit "temp:25.1,mode:auto" ++ CRLF] in
  ask_dict 1 c self
  = (Ok [(lit "temp", lit "25.1"); (lit "mode", lit "auto")],
     snd (exchange 1 c self)).
Proof.
  intros c self.
  assert (H : exchange 1 c self
              = (Ok (lit "temp:25.1,mode:auto" ++ CRLF), snd (exchange 1 c self)))
    by (vm_compute; reflexivity).
  apply (ask_dict_round_trip 1 c self _ _ _ H).
  - vm_compute. reflexivity.
  - discriminate.
  - repeat constructor; simpl; intuition discriminate.
  - intros k v Hin. in_cases Hin; split; plain_bytes.
  - intros rest. vm_compute. discriminate.
  - intros rest. vm_compute. discriminate.
Defined.

(** The response ["a:1,"], with nothing after the last comma. *)
Lemma ask_dict_malformed_entry_witness :
  let c := PBytes (lit "status") in
  let self := Sim.net [lit "a:1," ++ CRLF] in
  ask_dict 1 c self = (Raise ValueError, snd (exchange 1 c self)).
Proof.
  intros c self.
  assert (H : exchange 1 c self
              = (Ok (lit "a:1," ++ CRLF), snd (exchange 1 c self)))
    by (vm_compute; reflexivity).
  apply (ask_dict_malformed_entry 1 c self _ _ [lit "a:1"; []] H).
  - vm_compute. reflexivity.
  - simpl. lia.
  - intros e [<- | [<- | []]]; simpl; intuition discriminate.
  - intros rest. vm_compute. discriminate.
  - intros rest. vm_compute. discriminate.
  - vm_compute. auto.
  - exists []. split; [simpl; auto | discriminate].
Defined.

(** The response ["a:1,b:2,a:3"], with the name ["a"] twice. *)
Lemma ask_dict_result_well_formed_witness :
  let c := PBytes (lit "status") in
  let self := Sim.net [lit "a:1,b:2,a:3" ++ CRLF] in
  ask_dict 1 c self
  = (Ok [(lit "a", lit "3"); (lit "b", lit "2")], snd (exchange 1 c self)) /\
  NoDup (map fst [(lit "a", lit "3"); (lit "b", lit "2")]).
Proof.
  intros c self.
  assert (H : ask_dict 1 c self
              = (Ok [(lit "a", lit "3"); (lit "b", lit "2")],
                 snd (exchange 1 c self)))
    by (vm_compute; reflexivity).
  split; [exact H|].
  exact (proj1 (proj2 (ask_dict_result_well_formed 1 c self _ _ H))).
Defined.

(** The response ["  OK 1.5 "]. *)
Lemma ask_result_clean_witness :
  let c := PBytes (lit "pow,1") in
  let self := Sim.net [lit "  OK 1.5 " ++ CRLF] in
  ask 1 c self = (Ok (lit "OK 1.5"), snd (exchange 1 c self)) /\
  strip (lit "OK 1.5") = lit "OK 1.5".
Proof.
  intros c self.
  assert (H : ask 1 c self = (Ok (lit "OK 1.5"), snd (exchange 1 c self)))
    by (vm_compute; reflexivity).
  split; [exact H|].
  exact (proj1 (ask_result_clean 1 c self _ _ H)).
Defined.

(** A line that arrives in two reads on a serial port. *)
Lemma recv_serial_never_empty_witness :
  let self := Flaky.usb [Returns (lit "OK"); Returns CRLF] in
  recv 3 256 self = (Ok (lit "OK" ++ CRLF), snd (recv 3 256 self)) /\
  lit "OK" ++ CRLF <> [].
Proof.
  intros self.
  assert (H : recv 3 256 self = (Ok (lit "OK" ++ CRLF), snd (recv 3 256 self)))
    by (vm_compute; reflexivity).
  split; [exact H|].
  exact (recv_serial_never_empty 3 256 self _ _ eq_refl H).
Defined.

(** Nothing arrives: a serial port and a socket. *)
Lemma recv_empty_first_read_witness :
  recv 1 256 (Flaky.usb [])
  = (Raise (RuntimeError (PStr "Timed out")), Flaky.usb []) /\
  recv 1 256 (Flaky.net []) = (Ok [], Flaky.net []).
Proof.
  split.
  - exact (proj1 (recv_empty_first_read 1 256 (Flaky.usb [])) eq_refl _ eq_refl).
  - exact (proj2 (recv_empty_first_read 1 256 (Flaky.net [])) eq_refl _ _
             eq_refl eq_refl).
Defined.

(** A socket that fails on the second read, and one that fails after an
    empty first read. *)
Lemma recv_socket_io_error_witness :
  let some := Flaky.net [Returns (lit "OK"); Raises IOError] in
  let none := Flaky.net [Returns []; Raises IOError] in
  recv 1 256 some = (Ok (lit "OK"), Flaky.net []) /\
  recv 1 256 none = (Raise IOError, Flaky.net []).
Proof.
  intros some none. split.
  - refine (proj1 (recv_socket_io_error 0 256 some
                     (Flaky.net [Raises IOError]) (Flaky.net [Raises IOError])
                     (Flaky.net []) (lit "OK") IOError
                     eq_refl eq_refl eq_refl eq_refl eq_refl) _).
    discriminate.
  - exact (proj2 (recv_socket_io_error 0 256 none
                    (Flaky.net [Raises IOError]) (Flaky.net [Raises IOError])
                    (Flaky.net []) [] IOError
                    eq_refl eq_refl eq_refl eq_refl eq_refl) eq_refl).
Defined.

Lemma Flaky_timeout_stored : @timeout_stored Flaky.chan Flaky.transport.
Proof.
  split.
  - reflexivity.
  - intros size w w' r. simpl. unfold Flaky.read.
    destruct (Flaky.script w) as [|[p | e] rest]; intros H;
      injection H as <- <-; reflexivity.
Qed.

(** A serial port whose second read fails: the timeout of 1 s is left at
    0.1 s; and one that delivers: the timeout is 1 s again. *)
Lemma recv_serial_timeout_witness :
  let good := Flaky.usb [Returns (lit "OK" ++ CRLF)] in
  let bad := Flaky.usb [Returns (lit "OK"); Raises IOError] in
  serial_timeout (dev (snd (recv 2 256 good))) = Some 1%Q /\
  fst (recv 2 256 bad) = Raise IOError /\
  serial_timeout (dev (snd (recv 2 256 bad))) = Some settle.
Proof.
  intros good bad. split; [|split].
  - apply (proj1 (recv_serial_timeout Flaky_timeout_stored 2 256 good eq_refl)
             (lit "OK" ++ CRLF) (snd (recv 2 256 good))).
    vm_compute. reflexivity.
  - vm_compute. reflexivity.
  - apply (proj2 (recv_serial_timeout Flaky_timeout_stored 2 256 bad eq_refl)
             (lit "OK") (snd (call (serial_readline 256) bad)) IOError
             (snd (recv 2 256 bad))).
    + vm_compute. reflexivity.
    + discriminate.
    + vm_compute. reflexivity.
Defined.

(** A serial port that was unplugged: the poll raises inside and answers
    [False]. *)
Lemma has_data_serial_exception_witness :
  let self := Flaky.usb [Raises (SerialException [OStr "device disconnected"])] in
  has_data 0 self = (Ok false, Flaky.usb []).
Proof.
  intros self.
  exact (proj2 (has_data_serial_exception 0 self eq_refl)
           [OStr "device disconnected"] _ eq_refl).
Defined.

(** Two stale packets are flushed; then the poll is false. *)
Lemma flush_ends_idle_witness :
  let self := Sim.net_pending [lit "old" ++ CRLF; lit "older" ++ CRLF] in
  flush 3 0 256 self
  = (Ok (lit "old" ++ CRLF ++ lit "older" ++ CRLF), snd (flush 3 0 256 self)) /\
  exists s, has_data 0 s = (Ok false, snd (flush 3 0 256 self)).
Proof.
  intros self.
  assert (H : flush 3 0 256 self
              = (Ok (lit "old" ++ CRLF ++ lit "older" ++ CRLF),
                 snd (flush 3 0 256 self)))
    by (vm_compute; reflexivity).
  split; [exact H|].
  exact (flush_ends_idle 3 0 256 self _ _ H).
Defined.

(** Two header bytes, then the channel closes. *)
Lemma ask_bin_short_header_witness :
  let c := PBytes (lit "get") in
  let self := Sim.net [[x05; x00]] in
  ask_bin 1 c self = (Raise StructError, snd (recv_raw 4 (snd (send c self)))).
Proof.
  intros c self.
  apply (ask_bin_short_header 1 c self (snd (send c self)) _ [x05; x00]).
  - vm_compute. reflexivity.
  - vm_compute. reflexivity.
  - discriminate.
Defined.

Lemma Stream_bounded_reads : @bounded_reads Stream.chan Stream.transport.
Proof.
  intros size w w' chunk Hsize.
  assert (H : Stream.read size w = (Returns chunk, w') -> len chunk <= size).
  { unfold Stream.read. intros E. injection E as <- _. unfold len. simpl. lia. }
  split; exact H.
Qed.

Lemma Stream_reads_deliver : @reads_deliver Stream.chan Stream.transport.
Proof.
  intros size w w' chunk Hsize.
  assert (H : Stream.read size w = (Returns chunk, w') -> 0 < len chunk).
  { unfold Stream.read. intros E. injection E as <- _. unfold len. simpl. lia. }
  split; exact H.
Qed.

(** Three bytes asked of a channel that brings one byte at a time. *)
Lemma recv_raw_exact_witness :
  let self := Stream.net 65 in
  recv_raw 3 self = (Ok (lit "ABC"), Stream.net 68) /\
  len (lit "ABC") = 3.
Proof.
  intros self.
  assert (H : recv_raw 3 self = (Ok (lit "ABC"), Stream.net 68))
    by (vm_compute; reflexivity).
  split; [exact H|].
  apply (recv_raw_exact Stream_bounded_reads Stream_reads_deliver 3 self
           (Stream.net 68) (lit "ABC")); [lia | exact H].
Defined.

(** A device that answers the query with an error. *)
Lemma reconnect_check_witness :
  let self := Sim.net [lit "ERR: not ready" ++ CRLF] in
  reconnect 1 1 true self
  = (Raise (RuntimeError (PStr "Device did not respond to query")),
     snd (ask 1 (PBytes (lit "info")) self)).
Proof.
  intros self.
  assert (H : reconnect 1 1 false self = (Ok tt, self))
    by (vm_compute; reflexivity).
  apply (proj2 (reconnect_check 1 1 self self H)
           (RuntimeError (PBytes (lit "not ready")))).
  vm_compute. reflexivity.
Defined.

(** The IPv6 loopback address. *)
Lemma init_address_with_colons_witness :
  let w := Sim.mkChan [] [] [] O None in
  __init__ 1 "::1" None 1 true w
  = (Raise ValueError, mkMOGDevice "::1" false true None w).
Proof.
  intros w.
  apply (init_address_with_colons 1 "::1" None 1 true w w w w).
  - intros rest. discriminate.
  - discriminate.
  - simpl. lia.
  - reflexivity.
  - reflexivity.
  - reflexivity.
Defined.

(** The absent ports [COM9], reported the Windows way, and [USB], reported
    the POSIX way. *)
Lemma init_serial_open_fails_witness :
  let w := Flaky.mkChan [] None in
  __init__ 1 "COM9" None 1 true w
  = (Raise (RuntimeError (PStr "could not open port 'COM9'")),
     mkMOGDevice "COM9" true false None w) /\
  __init__ 1 "USB" None 1 true w
  = (Raise AttributeError, mkMOGDevice "USB" true false None w).
Proof.
  intros w. split.
  - refine (proj1 (init_serial_open_fails 1 "COM9" 1 true w w
                     [OStr "could not open port 'COM9': FileNotFoundError"]
                     _ eq_refl) _ [] eq_refl).
    left. exists "9"%string. reflexivity.
  - refine (proj1 (proj2 (init_serial_open_fails 1 "USB" 1 true w w
                     [OInt 2;
                      OStr "could not open port USB: No such file or directory"]
                     _ eq_refl)) 2 _ eq_refl).
    right. reflexivity.
Defined.

(** The port 4 with the addresses ["USB"], ["10.1.1.23"] and
    ["10.1.1.23:7803"]. *)
Lemma init_port_witness :
  let w := Sim.mkChan [] [] [] O None in
  connection (snd (__init__ 1 "USB" (Some 4) 1 false w)) = "COM4"%string /\
  connection (snd (__init__ 1 "10.1.1.23" (Some 4) 1 false w))
  = "10.1.1.23:4"%string /\
  connection (snd (__init__ 1 "10.1.1.23:7803" (Some 4) 1 false w))
  = "10.1.1.23:7803"%string.
Proof.
  intros w.
  destruct (init_port 1 "USB" 4 1 false w) as [H1 _].
  destruct (init_port 1 "10.1.1.23" 4 1 false w) as [_ [H2 _]].
  destruct (init_port 1 "10.1.1.23:7803" 4 1 false w) as [_ [_ H3]].
  split; [|split].
  - exact (proj2 (H1 (or_intror eq_refl))).
  - refine (proj2 (H2 _ _ eq_refl)); [intros rest|]; discriminate.
  - refine (proj2 (proj2 (H3 _ _ eq_refl))); [intros rest|]; discriminate.
Defined.

(** A port that blocks (timeout [None]) and one with a timeout of 1 s,
    each set to 5 s and then back to what [set_timeout] returned. *)
Lemma set_timeout_serial_witness :
  let blocking := mkMOGDevice "COM3" true true None (Flaky.mkChan [] None) in
  let timed := Flaky.usb [] in
  serial_timeout (dev (snd (set_timeout None
                              (snd (set_timeout (Some 5%Q) blocking)))))
  = Some 5%Q /\
  serial_timeout (dev (snd (set_timeout (Some 1%Q)
                              (snd (set_timeout (Some 5%Q) timed)))))
  = Some 1%Q.
Proof.
  intros blocking timed. split.
  - exact (proj2 (proj2 (proj2 (proj2
             (set_timeout_serial Flaky_timeout_stored 5 blocking eq_refl))))).
  - exact (proj2 (proj2 (proj2 (proj2
             (set_timeout_serial Flaky_timeout_stored 5 timed eq_refl))))).
Defined.

(** A script of five lines, two of them commands. *)
Lemma load_script_text_witness :
  let lines := ["# setup"; "  FREQ,1,80MHz  # channel 1"; "";
                "   "; "ON,1"]%string in
  load_script lines = [(2, "FREQ,1,80MHz"%string); (5, "ON,1"%string)] /\
  str_strip "FREQ,1,80MHz" = "FREQ,1,80MHz"%string.
Proof.
  intros lines. split; [reflexivity|].
  refine (proj2 (proj2 (load_script_text lines 2 "FREQ,1,80MHz" _))).
  simpl. auto.
Defined.

(** The response ["OK,UC:1.2,DRV:3.4,FPGA:r7"]. *)
Lemma versions_round_trip_witness :
  let c := PBytes (lit "version") in
  let self := Sim.net [lit "OK,UC:1.2,DRV:3.4,FPGA:r7" ++ CRLF] in
  versions 1 self
  = (Ok [(lit "UC", lit "1.2"); (lit "DRV", lit "3.4"); (lit "FPGA", lit "r7")],
     snd (exchange 1 c self)).
Proof.
  intros c self.
  assert (H : exchange 1 c self
              = (Ok (lit "OK,UC:1.2,DRV:3.4,FPGA:r7" ++ CRLF),
                 snd (exchange 1 c self)))
    by (vm_compute; reflexivity).
  apply (versions_round_trip 1 self _ _ _ H).
  - vm_compute. reflexivity.
  - discriminate.
  - repeat constructor; simpl; intuition discriminate.
  - intros k v Hin. in_cases Hin;
      (split; [plain_bytes | split; [plain_bytes | split;
         [simpl; intuition discriminate | intros rest; discriminate]]]).
Defined.

(** The response ["OK,UC:1.2 beta,DRV:3.4"]. *)
Lemma versions_space_in_version_witness :
  let c := PBytes (lit "version") in
  let self := Sim.net [lit "OK,UC:1.2 beta,DRV:3.4" ++ CRLF] in
  versions 1 self = (Raise TypeError, snd (exchange 1 c self)).
Proof.
  intros c self.
  assert (H : exchange 1 c self
              = (Ok (lit "OK,UC:1.2 beta,DRV:3.4" ++ CRLF),
                 snd (exchange 1 c self)))
    by (vm_compute; reflexivity).
  apply (versions_space_in_version 1 self _ _
           [(lit "UC", lit "1.2 beta"); (lit "DRV", lit "3.4")] H).
  - vm_compute. reflexivity.
  - intros k v Hin. in_cases Hin;
      (repeat split; try (simpl; intuition discriminate);
       intros rest; discriminate).
  - exists (lit "UC"), (lit "1.2 beta"). split; [simpl; auto|].
    vm_compute. auto 10.
Defined.
